(** * DiscoveryGateway (go/vt/vtgate/discoverygateway.go)

    A shallow embedding of the legacy discovery gateway of vtgate: the
    retry / selection loop [withRetry], the cell-affine shuffle
    [shuffleTablets], the health-check listener [StatsUpdate],
    [WaitForTablets] and the constructor [NewDiscoveryGateway].

    The gateway talks to collaborators that live in other packages
    (the tablet stats cache, the failover buffer, the health check, the
    topology server, math/rand).  They are taken as parameters ([Env]):
    every call to one of them reads and updates an abstract [World] and
    is recorded in a trace of [Event]s, so that "how many times was the
    action invoked" or "was the buffer consulted" are statements about the
    trace a call produces. *)

From stdpp Require Import base option list gmap strings fin_maps.
From Stdlib Require Import ZArith Lia Ascii.

Local Open Scope Z_scope.

(** ** Protocol enums *)

(** topodatapb.TabletType *)
Inductive TabletType : Type :=
| TabletType_UNKNOWN
| TabletType_MASTER
| TabletType_REPLICA
| TabletType_RDONLY
| TabletType_SPARE
| TabletType_EXPERIMENTAL
| TabletType_BACKUP
| TabletType_RESTORE
| TabletType_DRAINED.

#[global] Instance TabletType_eq_dec : EqDecision TabletType.
Proof. solve_decision. Defined.

(** vtrpcpb.Code *)
Inductive Code : Type :=
| Code_OK
| Code_CANCELED
| Code_UNKNOWN
| Code_INVALID_ARGUMENT
| Code_DEADLINE_EXCEEDED
| Code_NOT_FOUND
| Code_ALREADY_EXISTS
| Code_PERMISSION_DENIED
| Code_RESOURCE_EXHAUSTED
| Code_FAILED_PRECONDITION
| Code_ABORTED
| Code_OUT_OF_RANGE
| Code_UNIMPLEMENTED
| Code_INTERNAL
| Code_UNAVAILABLE
| Code_DATA_LOSS
| Code_UNAUTHENTICATED.

#[global] Instance Code_eq_dec : EqDecision Code.
Proof. solve_decision. Defined.

(** ** Records *)

(** querypb.Target: the routing key. *)
Record Target : Type := mkTarget {
  Keyspace : string;
  Shard : string;
  TargetTabletType : TabletType
}.

(** topodatapb.TabletAlias and the part of topodatapb.Tablet the gateway
    reads. *)
Record TabletAlias : Type := mkAlias {
  Cell : string;
  Uid : Z
}.

Record Tablet : Type := mkTablet {
  Alias : TabletAlias
}.

(** discovery.LegacyTabletStats, restricted to the fields the gateway
    reads: [Key], [Tablet] and [Target]. *)
Record LegacyTabletStats : Type := mkStats {
  Key : string;
  StatsTablet : Tablet;
  StatsTarget : Target
}.

(** ** Errors *)

(** The messages of the errors the gateway builds.  The arguments of the
    format strings are kept as they are passed, not rendered. *)
Inductive error : Type :=
| VtError (code : Code) (msg : ErrMsg)
    (* vterrors.New / vterrors.Errorf *)
| ShardError (cause : error) (target : Target)
    (* NewShardError: the cause wrapped with "target: ks.shard.type" *)
with ErrMsg : Type :=
| MsgText (s : string)
| MsgTabletTypeNotAllowed (requested : TabletType) (allowed : list TabletType)
| MsgBufferFailed (bufferErr : error) (original : option error)
| MsgNoHealthyTablet (target : Target)
| MsgNoAvailableConnection
| MsgNoConnectionForKey (key : string) (tablet : Tablet).

(** Modelled from the spec: NewShardError is declared outside this file;
    the final error is wrapped with the target metadata (keyspace, shard,
    role) before it is returned, and a call that ends without an error has
    nothing to wrap. *)
Definition NewShardError (err : option error) (target : Target) : option error :=
  match err with
  | None => None
  | Some e => Some (ShardError e target)
  end.

(** ** Go integers *)

(** Go's [int] on the 64-bit platforms vtgate runs on: addition wraps. *)
Definition int_min : Z := - 2 ^ 63.
Definition int_max : Z := 2 ^ 63 - 1.
Definition int_wrap (z : Z) : Z := (z + 2 ^ 63) mod 2 ^ 64 - 2 ^ 63.
Definition int_add (a b : Z) : Z := int_wrap (a + b).

(** ** Outcomes

    A Go function either returns, or panics (index out of range,
    rand.Intn with a non-positive bound), or ends the process
    (log.Exitf).  [OutOfFuel] is the model's own: the only unbounded loop
    of the file, the partition loop of [shuffleTablets], is run with
    fuel. *)
Inductive outcome (A : Type) : Type :=
| Ret (a : A)
| Panic
| Fatal (msg : string)
| OutOfFuel.
Arguments Ret {A} a.
Arguments Panic {A}.
Arguments Fatal {A} msg.
Arguments OutOfFuel {A}.

Definition obind {A B} (o : outcome A) (f : A → outcome B) : outcome B :=
  match o with
  | Ret a => f a
  | Panic => Panic
  | Fatal msg => Fatal msg
  | OutOfFuel => OutOfFuel
  end.

(** ** Slices *)

(** [tablets[i]] for a Go [int] index: a panic outside [0, len). *)
Definition index {A} (l : list A) (i : Z) : outcome A :=
  if bool_decide (0 ≤ i) then
    match l !! Z.to_nat i with
    | Some a => Ret a
    | None => Panic
    end
  else Panic.

(** [l[i], l[j] = l[j], l[i]]: both operands are read, then [l[i]] and
    [l[j]] are assigned in that order. *)
Definition swap {A} (l : list A) (i j : Z) : outcome (list A) :=
  obind (index l j) (λ b,
  obind (index l i) (λ a,
  Ret (<[Z.to_nat j := a]> (<[Z.to_nat i := b]> l)))).

(** ** The partition phase of shuffleTablets (pure) *)

Definition inCell (cell : string) (t : LegacyTabletStats) : bool :=
  bool_decide (Cell (Alias (StatsTablet t)) = cell).

(** nextTablet: the loop [for ; offset < length; offset++] runs at most
    [length - offset] times; [n] is that number. *)
Fixpoint nextTablet_from (n : nat) (cell : string) (tablets : list LegacyTabletStats)
    (offset : Z) (sameCell : bool) : outcome Z :=
  match n with
  | O => Ret (-1)
  | S n' =>
      obind (index tablets offset) (λ t,
        if bool_decide (inCell cell t = sameCell) then Ret offset
        else nextTablet_from n' cell tablets (offset + 1) sameCell)
  end.

Definition nextTablet (cell : string) (tablets : list LegacyTabletStats)
    (offset length : Z) (sameCell : bool) : outcome Z :=
  nextTablet_from (Z.to_nat (length - offset)) cell tablets offset sameCell.

(** The first loop of shuffleTablets, [for { ... }]: it moves the same-cell
    tablets to the front and returns the slice with [sameCellMax]. *)
Fixpoint partitionLoop (fuel : nat) (cell : string) (tablets : list LegacyTabletStats)
    (sameCell diffCell length : Z) : outcome (list LegacyTabletStats * Z) :=
  match fuel with
  | O => OutOfFuel
  | S fuel' =>
      let sameCellMax := diffCell - 1 in
      obind (nextTablet cell tablets sameCell length true) (λ sameCell1,
      obind (nextTablet cell tablets diffCell length false) (λ diffCell1,
        if bool_decide (sameCell1 < 0) || bool_decide (diffCell1 < 0) then
          Ret (tablets, sameCellMax)
        else if bool_decide (sameCell1 < diffCell1) then
          partitionLoop fuel' cell tablets (diffCell1 + 1) diffCell1 length
        else
          obind (swap tablets sameCell1 diffCell1) (λ tablets1,
            partitionLoop fuel' cell tablets1 (sameCell1 + 1) (diffCell1 + 1) length)))
  end.

(** ** Configuration

    The command-line flags the gateway reads as process globals:
    -gateway_route_replica_to_rdonly, -allowed_tablet_types,
    -cells_to_watch, -tablet_filters and -keyspaces_to_watch. *)
Record Flags : Type := mkFlags {
  routeReplicaToRdonly : bool;
  AllowedTabletTypes : list TabletType;
  CellsToWatch : string;
  TabletFilters : list string;
  KeyspacesToWatch : list string
}.

(** discovery.LegacyTabletRecorder as NewDiscoveryGateway builds it: the
    health check itself, or a filter in front of it. *)
Inductive Recorder : Type :=
| HealthCheckRecorder
| FilterByShard (filters : list string) (next : Recorder)
| FilterByKeyspace (keyspaces : list string) (next : Recorder).

(** discovery.LegacyTopologyWatcher: one per watched cell. *)
Record Watcher : Type := mkWatcher {
  watcherCell : string;
  watcherRecorder : Recorder
}.

(** The fields of DiscoveryGateway that are plain data.  The health check,
    the stats cache and the buffer it owns are collaborators ([Env]). *)
Record DiscoveryGateway : Type := mkGateway {
  localCell : string;
  retryCount : Z;
  tabletsWatchers : list Watcher
}.

(** ** Collaborators and their trace *)

Inductive Event : Type :=
| EvWaitForFailoverEnd (keyspace shard : string) (err : option error)
    (buffered : bool) (bufferErr : option error)
| EvRetryDone
| EvGetHealthyTabletStats (keyspace shard : string) (tabletType : TabletType)
    (result : list LegacyTabletStats)
| EvGetConnection (key : string) (found : bool)
| EvInner (target : Target) (canRetry : bool) (err : option error)
| EvUpdateQueryInfo (aggregator : string) (tabletType : TabletType) (hasError : bool)
| EvTscStatsUpdate (ts : LegacyTabletStats)
| EvBufferStatsUpdate (ts : LegacyTabletStats)
| EvFindAllTargets (cell : string) (tabletTypes : list TabletType)
| EvWaitForAllServingTablets (targets : list Target)
| EvGetTopoServer
| EvSetListener (sendDownEvents : bool)
| EvNewLegacyCellTabletsWatcher (cell : string) (recorder : Recorder).

(** What the gateway calls outside this file.  Each entry takes the
    current [World] and gives the next one: the collaborators are
    stateful, and other goroutines change them between two calls. *)
Record Env : Type := mkEnv {
  World : Type;
  (** queryservice.QueryService, the RPC client of one tablet *)
  Conn : Type;
  (** vterrors.Code(err) *)
  vterrors_Code : error → Code;
  (** TabletType.String() *)
  TabletType_String : TabletType → string;
  (** dg.buffer.WaitForFailoverEnd(ctx, keyspace, shard, err):
      (retryDone, bufferErr) *)
  buffer_WaitForFailoverEnd :
    string → string → option error → World →
    (option (World → World) * option error) * World;
  (** dg.tsc.GetHealthyTabletStats(keyspace, shard, tabletType) *)
  tsc_GetHealthyTabletStats :
    string → string → TabletType → World → list LegacyTabletStats * World;
  (** dg.hc.GetConnection(key): nil when there is none *)
  hc_GetConnection : string → World → option Conn * World;
  (** the next draw of the global math/rand source *)
  rand_next : World → Z * World;
  (** aggr.UpdateQueryInfo("", tabletType, elapsed, hasError) on the
      aggregator of the given key *)
  aggr_UpdateQueryInfo : string → TabletType → bool → World → World;
  (** dg.tsc.StatsUpdate(ts) and dg.buffer.StatsUpdate(ts) *)
  tsc_StatsUpdate : LegacyTabletStats → World → World;
  buffer_StatsUpdate : LegacyTabletStats → World → World;
  (** srvtopo.FindAllTargets(ctx, dg.srvTopoServer, cell, tabletTypes) *)
  srvtopo_FindAllTargets :
    string → list TabletType → World → (list Target * option error) * World;
  (** discovery.FilterTargetsByKeyspaces(keyspaces, targets) *)
  discovery_FilterTargetsByKeyspaces : list string → list Target → list Target;
  (** dg.tsc.WaitForAllServingTablets(ctx, targets) *)
  tsc_WaitForAllServingTablets : list Target → World → option error * World;
  (** serv.GetTopoServer(): only its error matters here *)
  serv_GetTopoServer : World → option error * World;
  (** hc.SetListener(dg, sendDownEvents) *)
  hc_SetListener : bool → World → World;
  (** discovery.NewLegacyFilterByShard(recorder, filters): the error of
      parsing the filters, if any *)
  discovery_NewLegacyFilterByShard : list string → option error;
  (** discovery.NewLegacyCellTabletsWatcher(ctx, topoServer, recorder, cell, ...) *)
  discovery_NewLegacyCellTabletsWatcher : string → Recorder → World → World
}.

(** strings.Split(s, sep) for a one-character separator. *)
Fixpoint strings_Split (s : string) (sep : ascii) : list string :=
  match s with
  | EmptyString => [EmptyString]
  | String c rest =>
      if bool_decide (c = sep) then EmptyString :: strings_Split rest sep
      else match strings_Split rest sep with
           | h :: t => String c h :: t
           | [] => [String c EmptyString]
           end
  end.

(** The state of the loop of withRetry: [err], [invalidTablets],
    [bufferedOnce], and the calls deferred so far. *)
Record LoopState (W : Type) : Type := mkLoop {
  err : option error;
  invalidTablets : gmap string bool;
  bufferedOnce : bool;
  deferred : list (W → W)
}.
Arguments mkLoop {W}.
Arguments err {W}.
Arguments invalidTablets {W}.
Arguments bufferedOnce {W}.
Arguments deferred {W}.

(** How an iteration of the loop ends: [break], or [continue] (also the
    way the loop is left when no attempt remains). *)
Inductive control (W : Type) : Type :=
| Break (ls : LoopState W)
| Continue (ls : LoopState W).
Arguments Break {W}.
Arguments Continue {W}.

(** "skip tablets we tried before": the first tablet whose key is not in
    [invalidTablets]. *)
Fixpoint firstValid (invalid : gmap string bool) (tablets : list LegacyTabletStats)
    : option LegacyTabletStats :=
  match tablets with
  | [] => None
  | t :: rest =>
      match invalid !! Key t with
      | None => Some t
      | Some _ => firstValid invalid rest
      end
  end.

(** The allowed-tablet-types gate at the top of withRetry. *)
Fixpoint matchAllowed (allowed : list TabletType) (tabletType : TabletType) : bool :=
  match allowed with
  | [] => false
  | a :: rest =>
      if bool_decide (a = tabletType) then true else matchAllowed rest tabletType
  end.

Definition checkAllowedTabletTypes (flags : Flags) (target : Target) : option error :=
  if bool_decide (0 < Z.of_nat (length (AllowedTabletTypes flags))) then
    if matchAllowed (AllowedTabletTypes flags) (TargetTabletType target) then None
    else Some (VtError Code_FAILED_PRECONDITION
                 (MsgTabletTypeNotAllowed (TargetTabletType target)
                    (AllowedTabletTypes flags)))
  else None.

(** Modelled from the spec: discovery.FilteringKeyspaces is declared
    outside this file; it tells whether the narrowing filter
    keyspaces_to_watch was given, that is, whether the list is not empty. *)
Definition FilteringKeyspaces (flags : Flags) : bool :=
  bool_decide (0 < Z.of_nat (length (KeyspacesToWatch flags))).

(** ** The gateway's operations *)

Section Gateway.

Variable E : Env.
Variable flags : Flags.

Abbreviation W := (World E).

(** A computation of the gateway: from the current world to an outcome,
    with the next world and the calls it made, in order. *)
Definition M (A : Type) : Type := W → outcome (A * W * list Event).

Definition ret {A} (a : A) : M A := λ w, Ret (a, w, []).

Definition bind {A B} (m : M A) (f : A → M B) : M B := λ w,
  match m w with
  | Ret (a, w1, t1) =>
      match f a w1 with
      | Ret (b, w2, t2) => Ret (b, w2, t1 ++ t2)
      | Panic => Panic
      | Fatal msg => Fatal msg
      | OutOfFuel => OutOfFuel
      end
  | Panic => Panic
  | Fatal msg => Fatal msg
  | OutOfFuel => OutOfFuel
  end.

Notation "x <- m ;; k" := (bind m (λ x, k))
  (at level 20, m at level 99, k at level 200, only parsing).
Notation "' p <- m ;; k" := (bind m (λ x, match x with p => k end))
  (at level 20, p pattern, m at level 99, k at level 200, only parsing).

(** A pure step that may panic. *)
Definition lift {A} (o : outcome A) : M A := λ w,
  match o with
  | Ret a => Ret (a, w, [])
  | Panic => Panic
  | Fatal msg => Fatal msg
  | OutOfFuel => OutOfFuel
  end.

(** log.Exitf *)
Definition log_Exitf {A} (msg : string) : M A := λ _, Fatal msg.

(** *** Calls to the collaborators *)

Definition WaitForFailoverEnd (keyspace shard : string) (e : option error)
    : M (option (W → W) * option error) := λ w,
  let '(retryDone, bufferErr, w1) := buffer_WaitForFailoverEnd E keyspace shard e w in
  Ret (retryDone, bufferErr, w1,
       [EvWaitForFailoverEnd keyspace shard e
          (if retryDone is Some _ then true else false) bufferErr]).

Definition retryDoneCall (retryDone : W → W) : M unit := λ w,
  Ret (tt, retryDone w, [EvRetryDone]).

Definition GetHealthyTabletStats (keyspace shard : string) (tabletType : TabletType)
    : M (list LegacyTabletStats) := λ w,
  let '(tablets, w1) := tsc_GetHealthyTabletStats E keyspace shard tabletType w in
  Ret (tablets, w1, [EvGetHealthyTabletStats keyspace shard tabletType tablets]).

Definition GetConnection (key : string) : M (option (Conn E)) := λ w,
  let '(conn, w1) := hc_GetConnection E key w in
  Ret (conn, w1, [EvGetConnection key (if conn is Some _ then true else false)]).

(** The action of the caller, [inner(ctx, target, conn)]: (canRetry, err). *)
Definition Action : Type := Target → Conn E → W → (bool * option error) * W.

Definition callInner (inner : Action) (target : Target) (conn : Conn E)
    : M (bool * option error) := λ w,
  let '(canRetry, e, w1) := inner target conn w in
  Ret (canRetry, e, w1, [EvInner target canRetry e]).

(** rand.Intn(n): a number in [0, n); it panics if n <= 0. *)
Definition Intn (n : Z) : M Z := λ w,
  if bool_decide (n ≤ 0) then Panic
  else let '(r, w1) := rand_next E w in Ret (r `mod` n, w1, []).

(** *** shuffleTablets *)

(** "shuffle in same cell tablets": [for i := sameCellMax; i > 0; i--];
    [n] is [i]. *)
Fixpoint shuffleSameCell (n : nat) (tablets : list LegacyTabletStats)
    : M (list LegacyTabletStats) :=
  match n with
  | O => ret tablets
  | S n' =>
      let i := Z.of_nat n in
      swap_ <- Intn (i + 1) ;;
      tablets1 <- lift (swap tablets i swap_) ;;
      shuffleSameCell n' tablets1
  end.

(** "shuffle in diff cell tablets":
    [for i, diffCellMin := length-1, sameCellMax+1; i > diffCellMin; i--];
    [n] is [i - diffCellMin]. *)
Fixpoint shuffleDiffCell (n : nat) (sameCellMax diffCellMin : Z)
    (tablets : list LegacyTabletStats) : M (list LegacyTabletStats) :=
  match n with
  | O => ret tablets
  | S n' =>
      let i := diffCellMin + Z.of_nat n in
      r <- Intn (i - sameCellMax) ;;
      let swap_ := r + diffCellMin in
      tablets1 <- lift (swap tablets i swap_) ;;
      shuffleDiffCell n' sameCellMax diffCellMin tablets1
  end.

(** shuffleTablets(cell, tablets); the slice it rearranges in place is
    returned.  The partition loop gets [len(tablets) + 1] iterations of
    fuel, which [partitionLoop_returns] shows to be enough. *)
Definition shuffleTablets (cell : string) (tablets : list LegacyTabletStats)
    : M (list LegacyTabletStats) :=
  let length := Z.of_nat (List.length tablets) in
  ' (tablets1, sameCellMax) <-
    lift (partitionLoop (S (List.length tablets)) cell tablets 0 0 length) ;;
  tablets2 <- shuffleSameCell (Z.to_nat sameCellMax) tablets1 ;;
  shuffleDiffCell (Z.to_nat (length - 1 - (sameCellMax + 1)))
    sameCellMax (sameCellMax + 1) tablets2.

(** *** updateStats and getStatsAggregator *)

(** getStatsAggregator finds, or creates, the aggregator of the key
    "%v/%v/%v" of keyspace, shard and tablet type; the aggregators
    themselves live in the world. *)
Definition aggregatorKey (target : Target) : string :=
  (Keyspace target ++ "/" ++ Shard target ++ "/"
     ++ TabletType_String E (TargetTabletType target))%string.

Definition updateStats (target : Target) (e : option error) : M unit := λ w,
  let key := aggregatorKey target in
  let hasError := if e is Some _ then true else false in
  Ret (tt, aggr_UpdateQueryInfo E key (TargetTabletType target) hasError w,
       [EvUpdateQueryInfo key (TargetTabletType target) hasError]).

(** *** withRetry *)

(** Lines 271-290: the failover buffer, consulted at the top of an
    attempt.  [inl] is the [break]. *)
Definition bufferStep (target : Target) (inTransaction : bool) (ls : LoopState W)
    : M (LoopState W + LoopState W) :=
  if negb (bufferedOnce ls) && negb inTransaction
     && bool_decide (TargetTabletType target = TabletType_MASTER) then
    ' (retryDone, bufferErr) <-
      WaitForFailoverEnd (Keyspace target) (Shard target) (err ls) ;;
    match bufferErr with
    | Some be =>
        ret (inl (mkLoop
               (Some (VtError (vterrors_Code E be) (MsgBufferFailed be (err ls))))
               (invalidTablets ls) (bufferedOnce ls) (deferred ls)))
    | None =>
        match retryDone with
        | Some rd =>
            ret (inr (mkLoop (err ls) (invalidTablets ls) true (rd :: deferred ls)))
        | None => ret (inr ls)
        end
    end
  else ret (inr ls).

(** Lines 292-298: the healthy tablets of the target, with the RDONLY
    ones appended for a REPLICA target when the flag is set. *)
Definition healthyTablets (target : Target) : M (list LegacyTabletStats) :=
  tablets <- GetHealthyTabletStats (Keyspace target) (Shard target)
               (TargetTabletType target) ;;
  if routeReplicaToRdonly flags
     && bool_decide (TargetTabletType target = TabletType_REPLICA) then
    rdonly <- GetHealthyTabletStats (Keyspace target) (Shard target)
                TabletType_RDONLY ;;
    ret (tablets ++ rdonly)
  else ret tablets.

(** One iteration of the loop. *)
Definition attempt (dg : DiscoveryGateway) (target : Target) (inTransaction : bool)
    (inner : Action) (ls : LoopState W) : M (control W) :=
  b <- bufferStep target inTransaction ls ;;
  match b with
  | inl ls1 => ret (Break ls1)
  | inr ls1 =>
      tablets <- healthyTablets target ;;
      if bool_decide (length tablets = 0%nat) then
        ret (Break (mkLoop
               (Some (VtError Code_UNAVAILABLE (MsgNoHealthyTablet target)))
               (invalidTablets ls1) (bufferedOnce ls1) (deferred ls1)))
      else
        tablets1 <- shuffleTablets (localCell dg) tablets ;;
        match firstValid (invalidTablets ls1) tablets1 with
        | None =>
            ret (Break (mkLoop
                   (match err ls1 with
                    | None => Some (VtError Code_UNAVAILABLE MsgNoAvailableConnection)
                    | Some e => Some e
                    end)
                   (invalidTablets ls1) (bufferedOnce ls1) (deferred ls1)))
        | Some ts =>
            conn <- GetConnection (Key ts) ;;
            match conn with
            | None =>
                ret (Continue (mkLoop
                       (Some (VtError Code_UNAVAILABLE
                                (MsgNoConnectionForKey (Key ts) (StatsTablet ts))))
                       (<[Key ts := true]> (invalidTablets ls1))
                       (bufferedOnce ls1) (deferred ls1)))
            | Some c =>
                ' (canRetry, e) <- callInner inner (StatsTarget ts) c ;;
                _ <- updateStats target e ;;
                if canRetry : bool then
                  ret (Continue (mkLoop e (<[Key ts := true]> (invalidTablets ls1))
                                   (bufferedOnce ls1) (deferred ls1)))
                else
                  ret (Break (mkLoop e (invalidTablets ls1)
                                (bufferedOnce ls1) (deferred ls1)))
            end
        end
  end.

(** [for i := 0; i < dg.retryCount+1; i++]: [attempts] is the number of
    iterations left. *)
Fixpoint retryLoop (attempts : nat) (dg : DiscoveryGateway) (target : Target)
    (inTransaction : bool) (inner : Action) (ls : LoopState W) : M (LoopState W) :=
  match attempts with
  | O => ret ls
  | S attempts' =>
      c <- attempt dg target inTransaction inner ls ;;
      match c with
      | Break ls1 => ret ls1
      | Continue ls1 => retryLoop attempts' dg target inTransaction inner ls1
      end
  end.

(** The deferred [retryDone()] calls, run when withRetry returns. *)
Fixpoint runDeferred (ds : list (W → W)) : M unit :=
  match ds with
  | [] => ret tt
  | d :: rest => _ <- retryDoneCall d ;; runDeferred rest
  end.

(** The number of iterations the loop header allows. *)
Definition maxAttempts (dg : DiscoveryGateway) : nat :=
  Z.to_nat (int_add (retryCount dg) 1).

Definition withRetry (dg : DiscoveryGateway) (target : Target) (inTransaction : bool)
    (inner : Action) : M (option error) :=
  match checkAllowedTabletTypes flags target with
  | Some e => ret (Some e)
  | None =>
      ls <- retryLoop (maxAttempts dg) dg target inTransaction inner
              (mkLoop None ∅ false []) ;;
      _ <- runDeferred (deferred ls) ;;
      ret (NewShardError (err ls) target)
  end.

(** *** StatsUpdate *)

Definition tscStatsUpdate (ts : LegacyTabletStats) : M unit := λ w,
  Ret (tt, tsc_StatsUpdate E ts w, [EvTscStatsUpdate ts]).

Definition bufferStatsUpdate (ts : LegacyTabletStats) : M unit := λ w,
  Ret (tt, buffer_StatsUpdate E ts w, [EvBufferStatsUpdate ts]).

Definition StatsUpdate (ts : LegacyTabletStats) : M unit :=
  _ <- tscStatsUpdate ts ;;
  if bool_decide (TargetTabletType (StatsTarget ts) = TabletType_MASTER) then
    bufferStatsUpdate ts
  else ret tt.

(** *** WaitForTablets *)

Definition FindAllTargets (cell : string) (tabletTypes : list TabletType)
    : M (list Target * option error) := λ w,
  let '(targets, e, w1) := srvtopo_FindAllTargets E cell tabletTypes w in
  Ret (targets, e, w1, [EvFindAllTargets cell tabletTypes]).

Definition WaitForAllServingTablets (targets : list Target) : M (option error) := λ w,
  let '(e, w1) := tsc_WaitForAllServingTablets E targets w in
  Ret (e, w1, [EvWaitForAllServingTablets targets]).

Definition WaitForTablets (dg : DiscoveryGateway) (tabletTypesToWait : list TabletType)
    : M (option error) :=
  if bool_decide (length tabletTypesToWait = 0%nat) then ret None
  else
    ' (targets, e) <- FindAllTargets (localCell dg) tabletTypesToWait ;;
    match e with
    | Some e' => ret (Some e')
    | None =>
        let filteredTargets :=
          discovery_FilterTargetsByKeyspaces E (KeyspacesToWatch flags) targets in
        WaitForAllServingTablets filteredTargets
    end.

(** *** NewDiscoveryGateway *)

Definition GetTopoServer : M (option error) := λ w,
  let '(e, w1) := serv_GetTopoServer E w in Ret (e, w1, [EvGetTopoServer]).

Definition SetListener (sendDownEvents : bool) : M unit := λ w,
  Ret (tt, hc_SetListener E sendDownEvents w, [EvSetListener sendDownEvents]).

Definition NewLegacyCellTabletsWatcher (cell : string) (recorder : Recorder)
    : M Watcher := λ w,
  Ret (mkWatcher cell recorder,
       discovery_NewLegacyCellTabletsWatcher E cell recorder w,
       [EvNewLegacyCellTabletsWatcher cell recorder]).

(** Lines 132-145: the recorder of one cell. *)
Definition cellRecorder : M Recorder :=
  let recorder := HealthCheckRecorder in
  if bool_decide (0 < Z.of_nat (length (TabletFilters flags))) then
    _ <- (if FilteringKeyspaces flags then
            log_Exitf
              "Only one of -keyspaces_to_watch and -tablet_filters may be specified at a time"
          else ret tt) ;;
    match discovery_NewLegacyFilterByShard E (TabletFilters flags) with
    | Some _ => log_Exitf "Cannot parse tablet_filters parameter"
    | None => ret (FilterByShard (TabletFilters flags) recorder)
    end
  else if FilteringKeyspaces flags then
    ret (FilterByKeyspace (KeyspacesToWatch flags) recorder)
  else ret recorder.

(** [for _, c := range strings.Split(cells, ",")]: the watchers are
    appended to [dg.tabletsWatchers]. *)
Fixpoint watchCells (cells : list string) (watchers : list Watcher)
    : M (list Watcher) :=
  match cells with
  | [] => ret watchers
  | c :: rest =>
      if bool_decide (c = EmptyString) then watchCells rest watchers
      else
        recorder <- cellRecorder ;;
        ctw <- NewLegacyCellTabletsWatcher c recorder ;;
        watchCells rest (watchers ++ [ctw])
  end.

(** NewDiscoveryGateway(ctx, hc, serv, cell, retryCount); [hasServ] is
    [serv != nil]. *)
Definition NewDiscoveryGateway (hasServ : bool) (cell : string) (retryCount : Z)
    : M DiscoveryGateway :=
  _ <- (if hasServ then
          e <- GetTopoServer ;;
          match e with
          | Some _ => log_Exitf "Unable to create new discoverygateway"
          | None => ret tt
          end
        else ret tt) ;;
  _ <- SetListener true ;;
  watchers <- watchCells (strings_Split (CellsToWatch flags) ",") [] ;;
  ret (mkGateway cell retryCount watchers).

End Gateway.

Arguments ret {E A} a.
Arguments bind {E A B} m f.
Arguments lift {E A} o.

(** ** Reading a trace *)

Definition isInner (ev : Event) : bool :=
  match ev with EvInner _ _ _ => true | _ => false end.

Definition isBufferWait (ev : Event) : bool :=
  match ev with EvWaitForFailoverEnd _ _ _ _ _ => true | _ => false end.

(** The request was enqueued by the buffer and released: a [retryDone]
    came back, and no error. *)
Definition isBuffered (ev : Event) : bool :=
  match ev with EvWaitForFailoverEnd _ _ _ true None => true | _ => false end.

Definition isSnapshot (ev : Event) : bool :=
  match ev with EvGetHealthyTabletStats _ _ _ _ => true | _ => false end.

(** How many events of a trace satisfy [p]. *)
Fixpoint countIf (p : Event → bool) (t : list Event) : nat :=
  match t with
  | [] => 0
  | ev :: rest => ((if p ev then 1 else 0) + countIf p rest)%nat
  end.

(** How many times the action was invoked. *)
Definition countInner (t : list Event) : nat := countIf isInner t.

(** The keys of the tablets a connection was asked for, in order. *)
Fixpoint connectionKeys (t : list Event) : list string :=
  match t with
  | [] => []
  | EvGetConnection key _ :: rest => key :: connectionKeys rest
  | _ :: rest => connectionKeys rest
  end.

(** Same-cell tablets first: no tablet of another cell comes before a
    tablet of the local cell. *)
Definition cellPartitioned (cell : string) (tablets : list LegacyTabletStats) : Prop :=
  ∀ (i j : nat) (a b : LegacyTabletStats),
    tablets !! i = Some a → tablets !! j = Some b →
    inCell cell a = true → inCell cell b = false → (i < j)%nat.

(** ** Predicates of the proofs *)

(** The tablet at index [k] exists and is, or is not, in [cell]. *)
Definition cellAt (cell : string) (l : list LegacyTabletStats) (k : Z) (b : bool) : Prop :=
  ∃ t, l !! Z.to_nat k = Some t ∧ inCell cell t = b.

(** What the loop keeps true at the top of every iteration: the tablets
    before [diffCell] are in the local cell, those from [diffCell] up to
    [sameCell] are not. *)
Definition partitionInv cell (l : list LegacyTabletStats) (sameCell diffCell : Z) : Prop :=
  0 ≤ diffCell ≤ sameCell ∧ sameCell ≤ Z.of_nat (length l) ∧
  (∀ k, 0 ≤ k < diffCell → cellAt cell l k true) ∧
  (∀ k, diffCell ≤ k < sameCell → cellAt cell l k false).

(** What it returns: the tablets up to [sameCellMax] are in the local
    cell, and either none of the others is, or all are. *)
Definition partitionPost (cell : string) (l0 l : list LegacyTabletStats)
    (sameCellMax : Z) : Prop :=
  l ≡ₚ l0 ∧ -1 ≤ sameCellMax < Z.of_nat (length l) ∧
  (∀ k, 0 ≤ k ≤ sameCellMax → cellAt cell l k true) ∧
  ((∀ k, sameCellMax < k < Z.of_nat (length l) → cellAt cell l k false) ∨
   (∀ k, 0 ≤ k < Z.of_nat (length l) → cellAt cell l k true)).

(** [m], run in [w], returns, and its result, the next world and the
    calls it made satisfy [Q]. *)
Definition returns {E : Env} {A : Type} (m : M E A) (w : World E)
    (Q : A → World E → list Event → Prop) : Prop :=
  ∃ a w' t, m w = Ret (a, w', t) ∧ Q a w' t.

(** The state an iteration ends in. *)
Definition stateOf {W} (c : control W) : LoopState W :=
  match c with Break ls => ls | Continue ls => ls end.

(** The buffer discipline along a trace: whenever the buffer is consulted,
    [ok] holds and the request was not buffered before; [buffered] says
    whether it was when the trace starts. *)
Fixpoint disciplined (ok : Prop) (buffered : bool) (t : list Event) : Prop :=
  match t with
  | [] => True
  | ev :: rest =>
      (isBufferWait ev = true → ok ∧ buffered = false) ∧
      disciplined ok (buffered || isBuffered ev) rest
  end.

Definition hasBuffered (t : list Event) : bool := existsb isBuffered t.

(** An event of the buffer or of the stats cache: no connection is asked
    for and the action is not invoked. *)
Definition quietEvent (ev : Event) : bool := isBufferWait ev || isSnapshot ev.

(** From [(ls0, w0)], [k] iterations of the loop of withRetry all end in
    [continue], leave the loop in [(ls, w)] and make the calls [t]. *)
Inductive continues (E : Env) (flags : Flags) (dg : DiscoveryGateway) (target : Target)
    (inTransaction : bool) (inner : Action E)
    : nat → LoopState (World E) → World E → LoopState (World E) → World E →
      list Event → Prop :=
| continues_O ls w :
    continues E flags dg target inTransaction inner 0 ls w ls w []
| continues_S k ls0 w0 ls1 w1 t1 ls w t :
    attempt E flags dg target inTransaction inner ls0 w0 = Ret (Continue ls1, w1, t1) →
    continues E flags dg target inTransaction inner k ls1 w1 ls w t →
    continues E flags dg target inTransaction inner (S k) ls0 w0 ls w (t1 ++ t).

(** ** A small deployment to run the gateway on

    Two cells, [a] (the local one) and [b].  Keyspace [ks] has two
    masters, three replicas and two rdonly tablets; keyspace [ro] has
    rdonly tablets only.  The world is a counter that seeds math/rand.
    The buffer enqueues a request exactly when it is handed an error. *)
Module Demo.

Definition tablet (key cell : string) (keyspace : string) (tabletType : TabletType)
    : LegacyTabletStats :=
  mkStats key (mkTablet (mkAlias cell 1)) (mkTarget keyspace "0" tabletType).

Definition masters : list LegacyTabletStats :=
  [tablet "m1" "a" "ks" TabletType_MASTER; tablet "m2" "b" "ks" TabletType_MASTER].

Definition replicas : list LegacyTabletStats :=
  [tablet "r1" "b" "ks" TabletType_REPLICA; tablet "r2" "a" "ks" TabletType_REPLICA;
   tablet "r3" "b" "ks" TabletType_REPLICA].

Definition rdonlys (keyspace : string) : list LegacyTabletStats :=
  [tablet "o1" "b" keyspace TabletType_RDONLY; tablet "o2" "a" keyspace TabletType_RDONLY].

Definition healthy (keyspace : string) (tabletType : TabletType) : list LegacyTabletStats :=
  if bool_decide (keyspace = "ks") then
    match tabletType with
    | TabletType_MASTER => masters
    | TabletType_REPLICA => replicas
    | TabletType_RDONLY => rdonlys "ks"
    | _ => []
    end
  else if bool_decide (keyspace = "ro") then
    match tabletType with
    | TabletType_RDONLY => rdonlys "ro"
    | _ => []
    end
  else [].

(** vterrors.Code: wrapping keeps the code of the cause. *)
Fixpoint codeOf (e : error) : Code :=
  match e with
  | VtError c _ => c
  | ShardError cause _ => codeOf cause
  end.

Definition typeName (t : TabletType) : string :=
  match t with
  | TabletType_UNKNOWN => "UNKNOWN"
  | TabletType_MASTER => "MASTER"
  | TabletType_REPLICA => "REPLICA"
  | TabletType_RDONLY => "RDONLY"
  | TabletType_SPARE => "SPARE"
  | TabletType_EXPERIMENTAL => "EXPERIMENTAL"
  | TabletType_BACKUP => "BACKUP"
  | TabletType_RESTORE => "RESTORE"
  | TabletType_DRAINED => "DRAINED"
  end.

Definition env : Env := {|
  World := nat;
  Conn := string;
  vterrors_Code := codeOf;
  TabletType_String := typeName;
  buffer_WaitForFailoverEnd := λ _ _ e w,
    match e with
    | None => (None, None, w)
    | Some _ => (Some (λ w', w'), None, w)
    end;
  tsc_GetHealthyTabletStats := λ keyspace _ tabletType w, (healthy keyspace tabletType, w);
  hc_GetConnection := λ key w, (Some key, w);
  rand_next := λ w, (Z.of_nat w * 7 + 3, S w);
  aggr_UpdateQueryInfo := λ _ _ _ w, w;
  tsc_StatsUpdate := λ _ w, w;
  buffer_StatsUpdate := λ _ w, w;
  srvtopo_FindAllTargets := λ _ _ w, ([], None, w);
  discovery_FilterTargetsByKeyspaces := λ _ targets, targets;
  tsc_WaitForAllServingTablets := λ _ w, (None, w);
  serv_GetTopoServer := λ w, (None, w);
  hc_SetListener := λ _ w, w;
  discovery_NewLegacyFilterByShard := λ _, None;
  discovery_NewLegacyCellTabletsWatcher := λ _ _ w, w
|}.

(** The same deployment, with a stats cache and a buffer that leave a
    mark in the world when they are handed an update. *)
Definition envStats : Env := {|
  World := nat;
  Conn := string;
  vterrors_Code := codeOf;
  TabletType_String := typeName;
  buffer_WaitForFailoverEnd := buffer_WaitForFailoverEnd env;
  tsc_GetHealthyTabletStats := tsc_GetHealthyTabletStats env;
  hc_GetConnection := hc_GetConnection env;
  rand_next := rand_next env;
  aggr_UpdateQueryInfo := aggr_UpdateQueryInfo env;
  tsc_StatsUpdate := λ _ w, S w;
  buffer_StatsUpdate := λ _ w, (2 * w + 10)%nat;
  srvtopo_FindAllTargets := srvtopo_FindAllTargets env;
  discovery_FilterTargetsByKeyspaces := discovery_FilterTargetsByKeyspaces env;
  tsc_WaitForAllServingTablets := tsc_WaitForAllServingTablets env;
  serv_GetTopoServer := serv_GetTopoServer env;
  hc_SetListener := hc_SetListener env;
  discovery_NewLegacyFilterByShard := discovery_NewLegacyFilterByShard env;
  discovery_NewLegacyCellTabletsWatcher := discovery_NewLegacyCellTabletsWatcher env
|}.

Definition flags : Flags := mkFlags false [] "a,b" [] [].


(** Only masters allowed. *)
Definition flagsMasterOnly : Flags := mkFlags false [TabletType_MASTER] "a,b" [] [].

(** Both narrowing filters given. *)
Definition flagsBothFilters (cells : string) : Flags :=
  mkFlags false [] cells ["ks|0"] ["ks"].

Definition gateway (retryCount : Z) : DiscoveryGateway := mkGateway "a" retryCount [].

Definition target (keyspace : string) (tabletType : TabletType) : Target :=
  mkTarget keyspace "0" tabletType.

Definition failure : error := VtError Code_INTERNAL (MsgText "tablet: internal error").

(** An action that fails on every tablet and asks to be retried. *)
Definition alwaysRetry : Action env := λ _ _ w, (true, Some failure, w).

(** The loop state after the replicas of the given keys were tried, the
    latest first, and failed. *)
Fixpoint triedKeys (keys : list string) : gmap string bool :=
  match keys with
  | [] => ∅
  | key :: rest => <[key := true]> (triedKeys rest)
  end.

Definition triedReplicas (keys : list string) : LoopState nat :=
  mkLoop (Some failure) (triedKeys keys) false [].

Definition allReplicasTried : LoopState nat := triedReplicas ["r1"; "r3"; "r2"].

(** The calls of one failed attempt on the replica [key]. *)
Definition failedAttempt (key : string) : list Event :=
  [EvGetHealthyTabletStats "ks" "0" TabletType_REPLICA replicas;
   EvGetConnection key true;
   EvInner (target "ks" TabletType_REPLICA) true (Some failure);
   EvUpdateQueryInfo "ks/0/REPLICA" TabletType_REPLICA true].

(** The calls of the first three attempts of [alwaysRetry] on the
    replicas, from world 0. *)
Definition firstThreeAttempts : list Event :=
  failedAttempt "r2" ++ failedAttempt "r3" ++ failedAttempt "r1" ++ [].

End Demo.

(** ** More of the gateway *)

(** *** The topology watchers

    [tw.RefreshLag()] (a time.Duration, an int64) and [tw.TopoChecksum()]
    (a uint32) are read from each watcher in turn; the reads are calls
    that see, and may change, the world. *)
Section Watchers.

Variable W : Type.
Variable RefreshLag : Watcher → W → Z * W.
Variable TopoChecksum : Watcher → W → Z * W.

(** Modelled from the spec: the checksum of a watcher is a 32-bit hash
    (the type of [tw.TopoChecksum()] is declared outside this file; the
    source widens it with [int64(...)]).  [uint32 z] is the value a Go
    uint32 holds. *)
Definition uint32 (z : Z) : Z := z `mod` 2 ^ 32.

(** The loop of topologyWatcherMaxRefreshLag, with [lag] so far. *)
Fixpoint maxRefreshLagLoop (watchers : list Watcher) (lag : Z) (w : W) : Z * W :=
  match watchers with
  | [] => (lag, w)
  | tw :: rest =>
      let '(cellLag, w1) := RefreshLag tw w in
      maxRefreshLagLoop rest (if bool_decide (cellLag > lag) then cellLag else lag) w1
  end.

Definition topologyWatcherMaxRefreshLag (dg : DiscoveryGateway) (w : W) : Z * W :=
  maxRefreshLagLoop (tabletsWatchers dg) 0 w.

(** The lags the loop reads, in order. *)
Fixpoint refreshLags (watchers : list Watcher) (w : W) : list Z :=
  match watchers with
  | [] => []
  | tw :: rest => let '(cellLag, w1) := RefreshLag tw w in cellLag :: refreshLags rest w1
  end.

(** The loop of topologyWatcherChecksum:
    [checksum = checksum ^ int64(tw.TopoChecksum())]. *)
Fixpoint checksumLoop (watchers : list Watcher) (checksum : Z) (w : W) : Z * W :=
  match watchers with
  | [] => (checksum, w)
  | tw :: rest =>
      let '(c, w1) := TopoChecksum tw w in
      checksumLoop rest (Z.lxor checksum (uint32 c)) w1
  end.

Definition topologyWatcherChecksum (dg : DiscoveryGateway) (w : W) : Z * W :=
  checksumLoop (tabletsWatchers dg) 0 w.

End Watchers.

Arguments maxRefreshLagLoop {W} RefreshLag watchers lag w.
Arguments topologyWatcherMaxRefreshLag {W} RefreshLag dg w.
Arguments refreshLags {W} RefreshLag watchers w.
Arguments checksumLoop {W} TopoChecksum watchers checksum w.
Arguments topologyWatcherChecksum {W} TopoChecksum dg w.

(** *** getStatsAggregator

    [dg.statusAggregators], a map from "keyspace/shard/tablet_type" to the
    aggregator of that target.  [NewTabletStatusAggregator] is declared
    outside this file and is a parameter. *)
Section Aggregators.

Variable E : Env.
Variable Aggregator : Type.
Variable NewTabletStatusAggregator : string → string → TabletType → string → Aggregator.

(** The existing aggregator of the target's key, looked up once under the
    read lock and once more under the write lock, or else a new one, which
    is stored. *)
Definition getStatsAggregator (statusAggregators : gmap string Aggregator)
    (target : Target) : Aggregator * gmap string Aggregator :=
  let key := aggregatorKey E target in
  match statusAggregators !! key with
  | Some aggr => (aggr, statusAggregators)
  | None =>
      match statusAggregators !! key with
      | Some aggr => (aggr, statusAggregators)
      | None =>
          let aggr := NewTabletStatusAggregator (Keyspace target) (Shard target)
                        (TargetTabletType target) key in
          (aggr, <[key := aggr]> statusAggregators)
      end
  end.

End Aggregators.

Arguments getStatsAggregator E {Aggregator} NewTabletStatusAggregator statusAggregators target.

(** *** More readers of a trace *)

Definition isConnectionFound (ev : Event) : bool :=
  match ev with EvGetConnection _ true => true | _ => false end.

Definition isUpdateQueryInfo (ev : Event) : bool :=
  match ev with EvUpdateQueryInfo _ _ _ => true | _ => false end.

Definition isRetryDone (ev : Event) : bool :=
  match ev with EvRetryDone => true | _ => false end.

(** A stats update recorded on the aggregator of [target], under its
    tablet type. *)
Definition isUpdateFor (E : Env) (target : Target) (ev : Event) : bool :=
  match ev with
  | EvUpdateQueryInfo key tabletType _ =>
      bool_decide (key = aggregatorKey E target) &&
      bool_decide (tabletType = TargetTabletType target)
  | _ => false
  end.

(** Stats follow the action: the call after each invocation of the action
    is the update of the stats of [target], with the error flag of that
    invocation, and the stats are updated nowhere else. *)
Fixpoint statsFollow (E : Env) (target : Target) (t : list Event) : Prop :=
  match t with
  | [] => True
  | EvInner _ _ e :: rest =>
      match rest with
      | EvUpdateQueryInfo key tabletType hasError :: rest' =>
          key = aggregatorKey E target ∧
          tabletType = TargetTabletType target ∧
          hasError = (if e is Some _ then true else false) ∧
          statsFollow E target rest'
      | _ => False
      end
  | EvUpdateQueryInfo _ _ _ :: _ => False
  | _ :: rest => statsFollow E target rest
  end.

(** [retryDone] is a closure the buffer handed out for the shard of
    [target], with no error. *)
Definition handedOut (E : Env) (target : Target) (retryDone : World E → World E) : Prop :=
  ∃ e w w1,
    buffer_WaitForFailoverEnd E (Keyspace target) (Shard target) e w =
      (Some retryDone, None, w1).

(** The keys of the tablets the stats cache reported healthy. *)
Fixpoint snapshotKeys (t : list Event) : list string :=
  match t with
  | [] => []
  | EvGetHealthyTabletStats _ _ _ tablets :: rest => (Key <$> tablets) ++ snapshotKeys rest
  | _ :: rest => snapshotKeys rest
  end.

(** The error of the last invocation of the action, if there was one. *)
Fixpoint lastInnerErr (t : list Event) : option (option error) :=
  match t with
  | [] => None
  | ev :: rest =>
      match lastInnerErr rest with
      | Some e => Some e
      | None => match ev with EvInner _ _ e => Some e | _ => None end
      end
  end.

(** The two events that end the loop with the error they leave: the
    action reports an outcome that is not retryable, or the buffer
    refuses the request. *)
Definition endsLoop (E : Env) (ev : Event) : option (option error) :=
  match ev with
  | EvInner _ false e => Some e
  | EvWaitForFailoverEnd _ _ e _ (Some bufferErr) =>
      Some (Some (VtError (vterrors_Code E bufferErr) (MsgBufferFailed bufferErr e)))
  | _ => None
  end.

(** What may still follow such an event [ev]: the stats of the invocation
    after the action, and the deferred [retryDone]. *)
Definition mayFollow (ev ev' : Event) : bool :=
  match ev with
  | EvInner _ _ _ => isUpdateQueryInfo ev' || isRetryDone ev'
  | _ => isRetryDone ev'
  end.

Fixpoint firstEnd (E : Env) (t : list Event) : option (option error) :=
  match t with
  | [] => None
  | ev :: rest =>
      match endsLoop E ev with
      | Some e => Some e
      | None => firstEnd E rest
      end
  end.

Fixpoint endsWell (E : Env) (t : list Event) : Prop :=
  match t with
  | [] => True
  | ev :: rest =>
      match endsLoop E ev with
      | Some _ => Forall (λ ev', mayFollow ev ev' = true) rest
      | None => endsWell E rest
      end
  end.

(** The recorder NewDiscoveryGateway gives the watcher of a cell. *)
Definition recorderOf (flags : Flags) : Recorder :=
  if bool_decide (TabletFilters flags ≠ []) then
    FilterByShard (TabletFilters flags) HealthCheckRecorder
  else if bool_decide (KeyspacesToWatch flags ≠ []) then
    FilterByKeyspace (KeyspacesToWatch flags) HealthCheckRecorder
  else HealthCheckRecorder.

(** The cells NewDiscoveryGateway watches. *)
Definition watchedCells (flags : Flags) : list string :=
  filter (λ c, c ≠ EmptyString) (strings_Split (CellsToWatch flags) ",").

(** ** A second deployment: watchers with lags and checksums *)
Module Fleet.

Definition watchers : list Watcher :=
  [mkWatcher "a" HealthCheckRecorder; mkWatcher "b" HealthCheckRecorder;
   mkWatcher "c" HealthCheckRecorder].

(** The checksum of a cell depends on the cell alone. *)
Definition checksumOf (tw : Watcher) : Z :=
  if bool_decide (watcherCell tw = "a") then 11
  else if bool_decide (watcherCell tw = "b") then 4294967295
  else 7.

Definition TopoChecksum (tw : Watcher) (w : nat) : Z * nat := (checksumOf tw, S w).

(** An action that succeeds on the first tablet. *)
Definition succeed : Action Demo.env := λ _ _ w, (false, None, w).

(** An action that fails for good. *)
Definition failForGood : Action Demo.env := λ _ _ w, (false, Some Demo.failure, w).

Definition bufferFull : error :=
  VtError Code_RESOURCE_EXHAUSTED (MsgText "master buffer is full").

(** The deployment of [Demo], with a buffer that refuses every request. *)
Definition envBufferFull : Env := {|
  World := nat;
  Conn := string;
  vterrors_Code := Demo.codeOf;
  TabletType_String := Demo.typeName;
  buffer_WaitForFailoverEnd := λ _ _ _ w, (None, Some bufferFull, w);
  tsc_GetHealthyTabletStats := tsc_GetHealthyTabletStats Demo.env;
  hc_GetConnection := hc_GetConnection Demo.env;
  rand_next := rand_next Demo.env;
  aggr_UpdateQueryInfo := aggr_UpdateQueryInfo Demo.env;
  tsc_StatsUpdate := tsc_StatsUpdate Demo.env;
  buffer_StatsUpdate := buffer_StatsUpdate Demo.env;
  srvtopo_FindAllTargets := srvtopo_FindAllTargets Demo.env;
  discovery_FilterTargetsByKeyspaces := discovery_FilterTargetsByKeyspaces Demo.env;
  tsc_WaitForAllServingTablets := tsc_WaitForAllServingTablets Demo.env;
  serv_GetTopoServer := serv_GetTopoServer Demo.env;
  hc_SetListener := hc_SetListener Demo.env;
  discovery_NewLegacyFilterByShard := discovery_NewLegacyFilterByShard Demo.env;
  discovery_NewLegacyCellTabletsWatcher := discovery_NewLegacyCellTabletsWatcher Demo.env
|}.

(** The deployment of [Demo], with tablet filters that cannot be parsed. *)
Definition envBadFilters : Env := {|
  World := nat;
  Conn := string;
  vterrors_Code := Demo.codeOf;
  TabletType_String := Demo.typeName;
  buffer_WaitForFailoverEnd := buffer_WaitForFailoverEnd Demo.env;
  tsc_GetHealthyTabletStats := tsc_GetHealthyTabletStats Demo.env;
  hc_GetConnection := hc_GetConnection Demo.env;
  rand_next := rand_next Demo.env;
  aggr_UpdateQueryInfo := aggr_UpdateQueryInfo Demo.env;
  tsc_StatsUpdate := tsc_StatsUpdate Demo.env;
  buffer_StatsUpdate := buffer_StatsUpdate Demo.env;
  srvtopo_FindAllTargets := srvtopo_FindAllTargets Demo.env;
  discovery_FilterTargetsByKeyspaces := discovery_FilterTargetsByKeyspaces Demo.env;
  tsc_WaitForAllServingTablets := tsc_WaitForAllServingTablets Demo.env;
  serv_GetTopoServer := serv_GetTopoServer Demo.env;
  hc_SetListener := hc_SetListener Demo.env;
  discovery_NewLegacyFilterByShard := λ _,
    Some (VtError Code_INVALID_ARGUMENT (MsgText "invalid FilterByShard parameter"));
  discovery_NewLegacyCellTabletsWatcher := discovery_NewLegacyCellTabletsWatcher Demo.env
|}.

(** The deployment of [Demo], with a buffer that enqueues every request;
    the [retryDone] it hands out leaves a mark in the world. *)
Definition envBuffering : Env := {|
  World := nat;
  Conn := string;
  vterrors_Code := Demo.codeOf;
  TabletType_String := Demo.typeName;
  buffer_WaitForFailoverEnd := λ _ _ _ w, (Some (λ w', (w' + 100)%nat), None, w);
  tsc_GetHealthyTabletStats := tsc_GetHealthyTabletStats Demo.env;
  hc_GetConnection := hc_GetConnection Demo.env;
  rand_next := rand_next Demo.env;
  aggr_UpdateQueryInfo := λ _ _ _ w, (2 * w + 1)%nat;
  tsc_StatsUpdate := tsc_StatsUpdate Demo.env;
  buffer_StatsUpdate := buffer_StatsUpdate Demo.env;
  srvtopo_FindAllTargets := srvtopo_FindAllTargets Demo.env;
  discovery_FilterTargetsByKeyspaces := discovery_FilterTargetsByKeyspaces Demo.env;
  tsc_WaitForAllServingTablets := tsc_WaitForAllServingTablets Demo.env;
  serv_GetTopoServer := serv_GetTopoServer Demo.env;
  hc_SetListener := hc_SetListener Demo.env;
  discovery_NewLegacyFilterByShard := discovery_NewLegacyFilterByShard Demo.env;
  discovery_NewLegacyCellTabletsWatcher := discovery_NewLegacyCellTabletsWatcher Demo.env
|}.

End Fleet.

(** * Proofs *)

(** ** Slices: reading and swapping *)

Lemma index_Ret {A} (l : list A) (i : Z) (a : A) :
  index l i = Ret a ↔ 0 ≤ i ∧ l !! Z.to_nat i = Some a.
Proof.
  unfold index. case_bool_decide as Hi.
  - destruct (l !! Z.to_nat i) as [x|] eqn:Hl; split.
    + intros [= ->]. auto.
    + intros [_ [= ->]]. reflexivity.
    + discriminate.
    + intros [_ ?]. discriminate.
  - split; [discriminate | intros [? _]; lia].
Qed.

Lemma index_in_range {A} (l : list A) (i : Z) :
  0 ≤ i < Z.of_nat (length l) → ∃ a, index l i = Ret a ∧ l !! Z.to_nat i = Some a.
Proof.
  intros Hi.
  destruct (lookup_lt_is_Some_2 l (Z.to_nat i)) as [a Ha]; [lia|].
  exists a. split; [|exact Ha]. apply index_Ret. split; [lia | exact Ha].
Qed.

Lemma swap_in_range {A} (l : list A) (i j : Z) :
  0 ≤ i < Z.of_nat (length l) → 0 ≤ j < Z.of_nat (length l) →
  ∃ a b, l !! Z.to_nat i = Some a ∧ l !! Z.to_nat j = Some b ∧
         swap l i j = Ret (<[Z.to_nat j := a]> (<[Z.to_nat i := b]> l)).
Proof.
  intros Hi Hj.
  destruct (index_in_range l i Hi) as (a & Hia & Ha).
  destruct (index_in_range l j Hj) as (b & Hjb & Hb).
  exists a, b. repeat split; try assumption.
  unfold swap. rewrite Hjb. simpl. rewrite Hia. reflexivity.
Qed.

(** Putting [x] at a position of [l] and the element that was there in
    front gives the same elements as [x :: l]. *)
Lemma insert_cons_Permutation {A} (l : list A) (j : nat) (b x : A) :
  l !! j = Some b → b :: <[j := x]> l ≡ₚ x :: l.
Proof.
  revert j. induction l as [|y l IH]; intros [|j] Hj; simpl in *; try discriminate.
  - injection Hj as ->. apply perm_swap.
  - etrans; [apply perm_swap|].
    etrans; [apply perm_skip, (IH j Hj)|]. apply perm_swap.
Qed.

Lemma swapped_Permutation {A} (l : list A) (i j : nat) (a b : A) :
  l !! i = Some a → l !! j = Some b → <[j := a]> (<[i := b]> l) ≡ₚ l.
Proof.
  revert i j. induction l as [|y l IH]; intros [|i] [|j] Hi Hj; simpl in *;
    try discriminate.
  - injection Hi as ->. reflexivity.
  - injection Hi as ->. apply insert_cons_Permutation. exact Hj.
  - injection Hj as ->. apply insert_cons_Permutation. exact Hi.
  - f_equiv. apply IH; assumption.
Qed.

(** A swap inside the first [m] positions permutes them and leaves the
    rest alone. *)
Lemma swapped_prefix {A} (l : list A) (m i j : nat) (a b : A) :
  (i < m)%nat → (j < m)%nat → l !! i = Some a → l !! j = Some b →
  take m (<[j := a]> (<[i := b]> l)) ≡ₚ take m l ∧
  drop m (<[j := a]> (<[i := b]> l)) = drop m l.
Proof.
  intros Him Hjm Hi Hj. split.
  - rewrite !take_insert_lt by assumption.
    apply swapped_Permutation; rewrite lookup_take_lt; assumption.
  - rewrite !drop_insert_lt by assumption. reflexivity.
Qed.

(** A swap at positions [m] and later permutes them and leaves the first
    [m] alone. *)
Lemma swapped_suffix {A} (l : list A) (m i j : nat) (a b : A) :
  (m ≤ i)%nat → (m ≤ j)%nat → l !! i = Some a → l !! j = Some b →
  take m (<[j := a]> (<[i := b]> l)) = take m l ∧
  drop m (<[j := a]> (<[i := b]> l)) ≡ₚ drop m l.
Proof.
  intros Him Hjm Hi Hj. split.
  - rewrite !take_insert_ge by assumption. reflexivity.
  - rewrite !drop_insert_ge by assumption.
    apply swapped_Permutation; rewrite lookup_drop.
    + replace (m + (i - m))%nat with i by lia. exact Hi.
    + replace (m + (j - m))%nat with j by lia. exact Hj.
Qed.


(** ** nextTablet *)

Lemma nextTablet_from_spec (n : nat) cell (l : list LegacyTabletStats) offset sameCell :
  0 ≤ offset → offset + Z.of_nat n ≤ Z.of_nat (length l) →
  ∃ r, nextTablet_from n cell l offset sameCell = Ret r ∧
    ((r = -1 ∧ ∀ k, offset ≤ k < offset + Z.of_nat n → cellAt cell l k (negb sameCell)) ∨
     (offset ≤ r < offset + Z.of_nat n ∧ cellAt cell l r sameCell ∧
      ∀ k, offset ≤ k < r → cellAt cell l k (negb sameCell))).
Proof.
  revert offset. induction n as [|n IH]; intros offset H0 Hlen.
  - exists (-1). split; [reflexivity|]. left. split; [reflexivity|]. intros k Hk. lia.
  - destruct (index_in_range l offset) as (t & Hidx & Ht); [lia|].
    cbn [nextTablet_from]. rewrite Hidx. cbn [obind].
    case_bool_decide as Hc.
    + exists offset. split; [reflexivity|]. right.
      split; [lia|]. split; [exists t; auto|]. intros k Hk. lia.
    + destruct (IH (offset + 1)) as (r & Hr & Hspec); [lia | lia |].
      exists r. split; [exact Hr|].
      assert (Hoff : cellAt cell l offset (negb sameCell)).
      { exists t. split; [exact Ht|]. destruct (inCell cell t), sameCell; simpl; congruence. }
      destruct Hspec as [[-> Hall] | (Hrange & Hat & Hall)].
      * left. split; [reflexivity|]. intros k Hk.
        destruct (decide (k = offset)) as [->|]; [exact Hoff|]. apply Hall. lia.
      * right. split; [lia|]. split; [exact Hat|]. intros k Hk.
        destruct (decide (k = offset)) as [->|]; [exact Hoff|]. apply Hall. lia.
Qed.

Lemma nextTablet_spec cell (l : list LegacyTabletStats) offset sameCell :
  0 ≤ offset ≤ Z.of_nat (length l) →
  ∃ r, nextTablet cell l offset (Z.of_nat (length l)) sameCell = Ret r ∧
    ((r = -1 ∧ ∀ k, offset ≤ k < Z.of_nat (length l) → cellAt cell l k (negb sameCell)) ∨
     (offset ≤ r < Z.of_nat (length l) ∧ cellAt cell l r sameCell ∧
      ∀ k, offset ≤ k < r → cellAt cell l k (negb sameCell))).
Proof.
  intros H. unfold nextTablet.
  destruct (nextTablet_from_spec (Z.to_nat (Z.of_nat (length l) - offset)) cell l offset sameCell)
    as (r & Hr & Hspec); [lia | lia |].
  exists r. split; [exact Hr|].
  replace (offset + Z.of_nat (Z.to_nat (Z.of_nat (length l) - offset)))
    with (Z.of_nat (length l)) in Hspec by lia.
  exact Hspec.
Qed.

Lemma cellAt_functional cell (l : list LegacyTabletStats) k b1 b2 :
  cellAt cell l k b1 → cellAt cell l k b2 → b1 = b2.
Proof. intros (t1 & H1 & <-) (t2 & H2 & <-). congruence. Qed.

(** ** The partition loop *)



Lemma cellAt_swapped cell (l : list LegacyTabletStats) (i j : nat) a b (k : Z) c :
  l !! i = Some a → l !! j = Some b → 0 ≤ k →
  cellAt cell (<[j := a]> (<[i := b]> l)) k c ↔
  cellAt cell l (if decide (Z.to_nat k = j) then Z.of_nat i
                 else if decide (Z.to_nat k = i) then Z.of_nat j else k) c.
Proof.
  intros Hi Hj Hk. unfold cellAt.
  assert (Hli := lookup_lt_Some _ _ _ Hi). assert (Hlj := lookup_lt_Some _ _ _ Hj).
  destruct (decide (Z.to_nat k = j)) as [<-|Hkj].
  - rewrite list_lookup_insert_eq by (rewrite length_insert; exact Hlj).
    rewrite Nat2Z.id, Hi. reflexivity.
  - rewrite list_lookup_insert_ne by congruence.
    destruct (decide (Z.to_nat k = i)) as [<-|Hki].
    + rewrite list_lookup_insert_eq by exact Hli. rewrite Nat2Z.id, Hj. reflexivity.
    + rewrite list_lookup_insert_ne by congruence. reflexivity.
Qed.

Lemma partitionLoop_spec (fuel : nat) cell (l : list LegacyTabletStats) sameCell diffCell :
  partitionInv cell l sameCell diffCell →
  (Z.to_nat (Z.of_nat (length l) - sameCell) < fuel)%nat →
  ∃ l' sameCellMax,
    partitionLoop fuel cell l sameCell diffCell (Z.of_nat (length l)) = Ret (l', sameCellMax) ∧
    partitionPost cell l l' sameCellMax.
Proof.
  revert l sameCell diffCell.
  induction fuel as [|fuel IH]; intros l sameCell diffCell Hinv Hfuel; [lia|].
  destruct Hinv as (Hds & Hsl & Hpre & Hmid).
  destruct (nextTablet_spec cell l sameCell true) as (s1 & Hs1 & Hsame); [lia|].
  destruct (nextTablet_spec cell l diffCell false) as (d1 & Hd1 & Hdiff); [lia|].
  cbn [partitionLoop]. rewrite Hs1. cbn [obind]. rewrite Hd1. cbn [obind].
  simpl negb in *.
  destruct Hsame as [[-> Hnosame] | (Hsr & Hsat & Hsbefore)].
  { (* no same-cell tablet left *)
    rewrite bool_decide_eq_true_2 by lia. cbn [orb].
    exists l, (diffCell - 1). split; [reflexivity|].
    split; [reflexivity|]. split; [lia|]. split.
    - intros k Hk. apply Hpre. lia.
    - left. intros k Hk.
      destruct (decide (k < sameCell)); [apply Hmid | apply Hnosame]; lia. }
  rewrite (bool_decide_eq_false_2 (s1 < 0)) by lia. cbn [orb].
  destruct Hdiff as [[-> Hnodiff] | (Hdr & Hdat & Hdbefore)].
  { (* no other-cell tablet left: every tablet is in the local cell *)
    rewrite bool_decide_eq_true_2 by lia.
    exists l, (diffCell - 1). split; [reflexivity|].
    split; [reflexivity|]. split; [lia|]. split.
    - intros k Hk. apply Hpre. lia.
    - right. intros k Hk.
      destruct (decide (k < diffCell)); [apply Hpre | apply Hnodiff]; lia. }
  rewrite (bool_decide_eq_false_2 (d1 < 0)) by lia.
  assert (Hne : s1 ≠ d1).
  { intros ->. pose proof (cellAt_functional _ _ _ _ _ Hsat Hdat). discriminate. }
  case_bool_decide as Hlt.
  - (* the same-cell tablet is already in front: fast forward *)
    destruct (IH l (d1 + 1) d1) as (l' & scm & Hrun & Hpost).
    + split; [lia|]. split; [lia|]. split.
      * intros k Hk.
        destruct (decide (k < diffCell)); [apply Hpre | apply Hdbefore]; lia.
      * intros k Hk. replace k with d1 by lia. exact Hdat.
    + lia.
    + exists l', scm. split; [exact Hrun | exact Hpost].
  - (* swap it with the first other-cell tablet *)
    destruct (swap_in_range l s1 d1) as (a & b & Ha & Hb & Hswap); [lia | lia |].
    rewrite Hswap. cbn [obind].
    set (l1 := <[Z.to_nat d1 := a]> (<[Z.to_nat s1 := b]> l)) in *.
    assert (Hlen1 : length l1 = length l) by (unfold l1; rewrite !length_insert; reflexivity).
    assert (Hperm1 : l1 ≡ₚ l) by (apply swapped_Permutation; assumption).
    assert (Hmidfalse : ∀ k, d1 < k < s1 → cellAt cell l k false).
    { intros k Hk.
      destruct (decide (k < sameCell)); [apply Hmid | apply Hsbefore]; lia. }
    destruct (IH l1 (s1 + 1) (d1 + 1)) as (l' & scm & Hrun & Hpost).
    + split; [lia|]. split; [lia|]. split.
      * intros k Hk. apply cellAt_swapped; [assumption | assumption | lia |].
        destruct (decide (Z.to_nat k = Z.to_nat d1)) as [Heq|Hneq].
        -- rewrite Z2Nat.id by lia. exact Hsat.
        -- destruct (decide (Z.to_nat k = Z.to_nat s1)); [lia|].
           destruct (decide (k < diffCell)); [apply Hpre | apply Hdbefore]; lia.
      * intros k Hk. apply cellAt_swapped; [assumption | assumption | lia |].
        destruct (decide (Z.to_nat k = Z.to_nat d1)) as [Heq|Hneq]; [lia|].
        destruct (decide (Z.to_nat k = Z.to_nat s1)) as [Heq|Hneq'].
        -- rewrite Z2Nat.id by lia. exact Hdat.
        -- apply Hmidfalse. lia.
    + rewrite Hlen1. lia.
    + rewrite Hlen1 in Hrun. exists l', scm. split; [exact Hrun|].
      destruct Hpost as (Hp & Hr & Hpref & Hsuf).
      split; [by rewrite Hp|]. split; [exact Hr|]. split; [exact Hpref | exact Hsuf].
Qed.

Lemma partitionLoop_returns cell (l : list LegacyTabletStats) :
  ∃ l' sameCellMax,
    partitionLoop (S (length l)) cell l 0 0 (Z.of_nat (length l)) = Ret (l', sameCellMax) ∧
    partitionPost cell l l' sameCellMax.
Proof.
  apply partitionLoop_spec; [|lia].
  split; [lia|]. split; [lia|]. split; intros k Hk; lia.
Qed.


(** ** Rules for computations *)

Section Rules.

Context {E : Env}.
Implicit Types (w : World E).

Lemma returns_ret {A} (a : A) w (Q : A → World E → list Event → Prop) :
  Q a w [] → returns (ret a) w Q.
Proof. intros H. exists a, w, []. split; [reflexivity | exact H]. Qed.

Lemma returns_bind {A B} (m : M E A) (f : A → M E B) w
    (Q : B → World E → list Event → Prop) :
  returns m w (λ a w1 t1, returns (f a) w1 (λ b w2 t2, Q b w2 (t1 ++ t2))) →
  returns (bind m f) w Q.
Proof.
  intros (a & w1 & t1 & Hm & b & w2 & t2 & Hf & HQ).
  exists b, w2, (t1 ++ t2). split; [|exact HQ].
  unfold bind. rewrite Hm, Hf. reflexivity.
Qed.

Lemma returns_mono {A} (m : M E A) w (P Q : A → World E → list Event → Prop) :
  returns m w P → (∀ a w' t, P a w' t → Q a w' t) → returns m w Q.
Proof. intros (a & w' & t & Hm & HP) HPQ. exists a, w', t. auto. Qed.

Lemma returns_lift {A} (o : outcome A) (a : A) w (Q : A → World E → list Event → Prop) :
  o = Ret a → Q a w [] → returns (lift o) w Q.
Proof. intros -> H. exists a, w, []. split; [reflexivity | exact H]. Qed.

Lemma returns_Intn (n : Z) w (Q : Z → World E → list Event → Prop) :
  0 < n → (∀ r w', 0 ≤ r < n → Q r w' []) → returns (Intn E n) w Q.
Proof.
  intros Hn HQ. unfold returns, Intn.
  rewrite bool_decide_eq_false_2 by lia.
  destruct (rand_next E w) as [r w1].
  exists (r `mod` n), w1, []. split; [reflexivity|].
  apply HQ. apply Z.mod_pos_bound. exact Hn.
Qed.

End Rules.

(** ** shuffleTablets *)

Section Shuffle.

Context {E : Env}.
Implicit Types (w : World E) (l tablets : list LegacyTabletStats).

Lemma shuffleSameCell_spec (n m : nat) l w :
  (n = 0 ∨ (n < m ∧ n < length l))%nat →
  returns (shuffleSameCell E n l) w (λ l' _ t,
    t = [] ∧ take m l' ≡ₚ take m l ∧ drop m l' = drop m l).
Proof.
  revert l w. induction n as [|n IH]; intros l w Hn.
  - apply returns_ret. auto.
  - destruct Hn as [Hn | [Hnm Hnl]]; [discriminate|].
    cbn [shuffleSameCell]. apply returns_bind.
    apply returns_Intn; [lia|]. intros r w1 Hr.
    destruct (swap_in_range l (Z.of_nat (S n)) r) as (a & b & Ha & Hb & Hswap);
      [lia | lia |].
    apply returns_bind. eapply returns_lift; [exact Hswap|].
    destruct (swapped_prefix l m (Z.to_nat (Z.of_nat (S n))) (Z.to_nat r) a b)
      as [Htake Hdrop]; [lia | lia | exact Ha | exact Hb |].
    eapply returns_mono.
    + apply IH. right. rewrite !length_insert. lia.
    + intros l' w' t (-> & Ht & Hd). split; [reflexivity|].
      split; [by rewrite Ht | by rewrite Hd].
Qed.

Lemma shuffleDiffCell_spec (n : nat) (sameCellMax : Z) l w :
  -1 ≤ sameCellMax →
  (n = 0%nat ∨ sameCellMax + 1 + Z.of_nat n < Z.of_nat (length l)) →
  returns (shuffleDiffCell E n sameCellMax (sameCellMax + 1) l) w (λ l' _ t,
    t = [] ∧
    take (Z.to_nat (sameCellMax + 1)) l' = take (Z.to_nat (sameCellMax + 1)) l ∧
    drop (Z.to_nat (sameCellMax + 1)) l' ≡ₚ drop (Z.to_nat (sameCellMax + 1)) l).
Proof.
  intros Hscm. revert l w. induction n as [|n IH]; intros l w Hn.
  - apply returns_ret. auto.
  - destruct Hn as [Hn | Hn]; [discriminate|].
    cbn [shuffleDiffCell]. apply returns_bind.
    apply returns_Intn; [lia|]. intros r w1 Hr.
    destruct (swap_in_range l (sameCellMax + 1 + Z.of_nat (S n)) (r + (sameCellMax + 1)))
      as (a & b & Ha & Hb & Hswap); [lia | lia |].
    apply returns_bind. eapply returns_lift; [exact Hswap|].
    destruct (swapped_suffix l (Z.to_nat (sameCellMax + 1))
                (Z.to_nat (sameCellMax + 1 + Z.of_nat (S n)))
                (Z.to_nat (r + (sameCellMax + 1))) a b)
      as [Htake Hdrop]; [lia | lia | exact Ha | exact Hb |].
    eapply returns_mono.
    + apply IH. right. rewrite !length_insert. lia.
    + intros l' w' t (-> & Ht & Hd). split; [reflexivity|].
      split; [by rewrite Ht | by rewrite Hd].
Qed.

Lemma Permutation_take_drop {A} (l l' : list A) (m : nat) :
  take m l' ≡ₚ take m l → drop m l' ≡ₚ drop m l → l' ≡ₚ l.
Proof.
  intros Ht Hd. rewrite <- (take_drop m l'), <- (take_drop m l), Ht, Hd. reflexivity.
Qed.

Lemma cellPartitioned_split cell l (m : nat) :
  Forall (λ t, inCell cell t = true) (take m l) →
  Forall (λ t, inCell cell t = false) (drop m l) ∨ Forall (λ t, inCell cell t = true) l →
  cellPartitioned cell l.
Proof.
  intros Hpre Hsuf i j a b Hi Hj Ha Hb.
  destruct Hsuf as [Hsuf | Hall].
  - destruct (decide (i < m)%nat) as [Him|Him].
    + destruct (decide (j < m)%nat) as [Hjm|Hjm]; [|lia].
      rewrite Forall_lookup in Hpre.
      specialize (Hpre j b). rewrite lookup_take_lt in Hpre by exact Hjm.
      specialize (Hpre Hj). simpl in Hpre. congruence.
    + rewrite Forall_lookup in Hsuf.
      specialize (Hsuf (i - m)%nat a). rewrite lookup_drop in Hsuf.
      replace (m + (i - m))%nat with i in Hsuf by lia.
      specialize (Hsuf Hi). simpl in Hsuf. congruence.
  - rewrite Forall_lookup in Hall. specialize (Hall j b Hj). simpl in Hall. congruence.
Qed.

Lemma partitionPost_split cell l0 l sameCellMax :
  partitionPost cell l0 l sameCellMax →
  Forall (λ t, inCell cell t = true) (take (Z.to_nat (sameCellMax + 1)) l) ∧
  (Forall (λ t, inCell cell t = false) (drop (Z.to_nat (sameCellMax + 1)) l) ∨
   Forall (λ t, inCell cell t = true) l).
Proof.
  intros (_ & Hr & Hpre & Hsuf). split.
  - apply Forall_lookup. intros i x Hix.
    apply lookup_take_Some in Hix as [Hix Him].
    destruct (Hpre (Z.of_nat i)) as (t & Ht & Hc); [lia|].
    rewrite Nat2Z.id in Ht. congruence.
  - destruct Hsuf as [Hsuf | Hall]; [left | right]; apply Forall_lookup; intros i x Hix.
    + rewrite lookup_drop in Hix.
      assert (Hlt := lookup_lt_Some _ _ _ Hix).
      destruct (Hsuf (Z.of_nat (Z.to_nat (sameCellMax + 1) + i))) as (t & Ht & Hc); [lia|].
      rewrite Nat2Z.id in Ht. congruence.
    + assert (Hlt := lookup_lt_Some _ _ _ Hix).
      destruct (Hall (Z.of_nat i)) as (t & Ht & Hc); [lia|].
      rewrite Nat2Z.id in Ht. congruence.
Qed.

(** shuffleTablets returns, makes no call to a collaborator, and gives a
    permutation of its input with the tablets of the local cell first. *)
Lemma shuffleTablets_spec cell l w :
  returns (shuffleTablets E cell l) w (λ l' _ t,
    t = [] ∧ l' ≡ₚ l ∧ cellPartitioned cell l').
Proof.
  unfold shuffleTablets.
  destruct (partitionLoop_returns cell l) as (l1 & scm & Hrun & Hpost).
  apply returns_bind. eapply returns_lift; [exact Hrun|].
  pose proof (partitionPost_split _ _ _ _ Hpost) as [Hpre Hsuf].
  destruct Hpost as (Hperm & Hrange & _).
  assert (Hlen : length l1 = length l) by (by rewrite Hperm).
  apply returns_bind. eapply returns_mono.
  { apply (shuffleSameCell_spec (Z.to_nat scm) (Z.to_nat (scm + 1))).
    destruct (decide (scm ≤ 0)); [left | right]; lia. }
  intros l2 w2 t2 (-> & Ht2 & Hd2).
  assert (Hlen2 : length l2 = length l1).
  { rewrite <- (take_drop (Z.to_nat (scm + 1)) l2), <- (take_drop (Z.to_nat (scm + 1)) l1).
    rewrite !length_app, Ht2, Hd2. reflexivity. }
  eapply returns_mono.
  { apply shuffleDiffCell_spec; [lia|].
    destruct (decide (Z.of_nat (length l) - 1 - (scm + 1) ≤ 0)); [left | right]; lia. }
  intros l3 w3 t3 (-> & Ht3 & Hd3).
  split; [reflexivity|]. split.
  - rewrite <- Hperm. apply (Permutation_take_drop _ _ (Z.to_nat (scm + 1))).
    + by rewrite Ht3, Ht2.
    + by rewrite Hd3, Hd2.
  - apply (cellPartitioned_split _ _ (Z.to_nat (scm + 1))).
    + rewrite Ht3, Ht2. exact Hpre.
    + destruct Hsuf as [Hsuf | Hall]; [left | right].
      * rewrite Hd3, Hd2. exact Hsuf.
      * assert (Hp : l3 ≡ₚ l1).
        { apply (Permutation_take_drop _ _ (Z.to_nat (scm + 1))).
          - by rewrite Ht3, Ht2.
          - by rewrite Hd3, Hd2. }
        rewrite Hp. exact Hall.
Qed.

End Shuffle.

(** ** Rules for the calls to the collaborators *)

Section Calls.

Context {E : Env}.
Implicit Types (w : World E).

Lemma returns_WaitForFailoverEnd keyspace shard e w
    (Q : option (World E → World E) * option error → World E → list Event → Prop) :
  (∀ retryDone bufferErr w1,
     buffer_WaitForFailoverEnd E keyspace shard e w = (retryDone, bufferErr, w1) →
     Q (retryDone, bufferErr) w1
       [EvWaitForFailoverEnd keyspace shard e
          (if retryDone is Some _ then true else false) bufferErr]) →
  returns (WaitForFailoverEnd E keyspace shard e) w Q.
Proof.
  intros H. unfold returns, WaitForFailoverEnd.
  destruct (buffer_WaitForFailoverEnd E keyspace shard e w) as [[rd be] w1] eqn:Hcall.
  eexists _, _, _. split; [reflexivity|]. apply H. reflexivity.
Qed.

Lemma returns_GetHealthyTabletStats keyspace shard tabletType w
    (Q : list LegacyTabletStats → World E → list Event → Prop) :
  (∀ tablets w1,
     tsc_GetHealthyTabletStats E keyspace shard tabletType w = (tablets, w1) →
     Q tablets w1 [EvGetHealthyTabletStats keyspace shard tabletType tablets]) →
  returns (GetHealthyTabletStats E keyspace shard tabletType) w Q.
Proof.
  intros H. unfold returns, GetHealthyTabletStats.
  destruct (tsc_GetHealthyTabletStats E keyspace shard tabletType w) as [tablets w1] eqn:Hcall.
  eexists _, _, _. split; [reflexivity|]. apply H. reflexivity.
Qed.

Lemma returns_GetConnection key w
    (Q : option (Conn E) → World E → list Event → Prop) :
  (∀ conn w1,
     hc_GetConnection E key w = (conn, w1) →
     Q conn w1 [EvGetConnection key (if conn is Some _ then true else false)]) →
  returns (GetConnection E key) w Q.
Proof.
  intros H. unfold returns, GetConnection.
  destruct (hc_GetConnection E key w) as [conn w1] eqn:Hcall.
  eexists _, _, _. split; [reflexivity|]. apply H. reflexivity.
Qed.

Lemma returns_callInner (inner : Action E) target conn w
    (Q : bool * option error → World E → list Event → Prop) :
  (∀ canRetry e w1,
     inner target conn w = (canRetry, e, w1) →
     Q (canRetry, e) w1 [EvInner target canRetry e]) →
  returns (callInner E inner target conn) w Q.
Proof.
  intros H. unfold returns, callInner.
  destruct (inner target conn w) as [[canRetry e] w1] eqn:Hcall.
  eexists _, _, _. split; [reflexivity|]. apply H. reflexivity.
Qed.

Lemma returns_updateStats target e w (Q : unit → World E → list Event → Prop) :
  (∀ w1, Q tt w1 [EvUpdateQueryInfo (aggregatorKey E target) (TargetTabletType target)
                     (if e is Some _ then true else false)]) →
  returns (updateStats E target e) w Q.
Proof. intros H. eexists _, _, _. split; [reflexivity|]. apply H. Qed.

Lemma returns_shuffleTablets cell tablets w
    (Q : list LegacyTabletStats → World E → list Event → Prop) :
  (∀ tablets1 w1, tablets1 ≡ₚ tablets → cellPartitioned cell tablets1 → Q tablets1 w1 []) →
  returns (shuffleTablets E cell tablets) w Q.
Proof.
  intros H. eapply returns_mono; [apply shuffleTablets_spec|].
  intros l' w' t (-> & Hp & Hc). apply H; assumption.
Qed.

Lemma returns_runDeferred (ds : list (World E → World E)) w :
  returns (runDeferred E ds) w (λ _ _ t, t = replicate (length ds) EvRetryDone).
Proof.
  revert w. induction ds as [|d ds IH]; intros w.
  - apply returns_ret. reflexivity.
  - cbn [runDeferred]. apply returns_bind.
    eexists _, _, _. split; [reflexivity|].
    eapply returns_mono; [apply IH|]. intros _ w' t ->. reflexivity.
Qed.

End Calls.

(** One step through a computation of the gateway. *)
Ltac step :=
  lazymatch goal with
  | |- returns (bind _ _) _ _ => apply returns_bind
  | |- returns (ret _) _ _ => apply returns_ret
  | |- returns (WaitForFailoverEnd _ _ _ _) _ _ =>
      apply returns_WaitForFailoverEnd; intros ? ? ? ?
  | |- returns (GetHealthyTabletStats _ _ _ _) _ _ =>
      apply returns_GetHealthyTabletStats; intros ? ? ?
  | |- returns (GetConnection _ _) _ _ => apply returns_GetConnection; intros ? ? ?
  | |- returns (callInner _ _ _ _) _ _ => apply returns_callInner; intros ? ? ? ?
  | |- returns (updateStats _ _ _) _ _ => apply returns_updateStats; intros ?
  | |- returns (shuffleTablets _ _ _) _ _ => apply returns_shuffleTablets; intros ? ? ? ?
  | |- returns (match ?x with _ => _ end) _ _ => destruct x eqn:?
  end.

(** ** How often the action is invoked *)

Section Attempt.

Context {E : Env}.
Variable flags : Flags.
Implicit Types (w : World E) (ls : LoopState (World E)).

Lemma countIf_app p (t1 t2 : list Event) :
  countIf p (t1 ++ t2) = (countIf p t1 + countIf p t2)%nat.
Proof. induction t1 as [|ev t1 IH]; simpl; [reflexivity | rewrite IH; lia]. Qed.

Lemma countInner_app (t1 t2 : list Event) :
  countInner (t1 ++ t2) = (countInner t1 + countInner t2)%nat.
Proof. apply countIf_app. Qed.

Lemma attempt_countInner dg target inTransaction (inner : Action E) ls w :
  returns (attempt E flags dg target inTransaction inner ls) w
    (λ _ _ t, (countInner t ≤ 1)%nat).
Proof.
  unfold attempt, bufferStep, healthyTablets.
  repeat step; rewrite ?countInner_app; cbn; lia.
Qed.

End Attempt.


(** ** Go integers *)


Lemma int_add_le (a b : Z) : int_min ≤ a + b → int_add a b ≤ a + b.
Proof.
  unfold int_add, int_wrap, int_min. intros H.
  pose proof (Z.mod_le (a + b + 2 ^ 63) (2 ^ 64) ltac:(lia) ltac:(lia)). lia.
Qed.

(** ** Traces and the buffer discipline *)

Lemma disciplined_app ok b (t1 t2 : list Event) :
  disciplined ok b (t1 ++ t2) ↔
  disciplined ok b t1 ∧ disciplined ok (b || hasBuffered t1) t2.
Proof.
  revert b. induction t1 as [|ev t1 IH]; intros b; simpl.
  - rewrite orb_false_r. tauto.
  - rewrite IH, orb_assoc. tauto.
Qed.

Lemma hasBuffered_app (t1 t2 : list Event) :
  hasBuffered (t1 ++ t2) = hasBuffered t1 || hasBuffered t2.
Proof. apply existsb_app. Qed.

Lemma hasBuffered_countIf (t : list Event) :
  hasBuffered t = false ↔ countIf isBuffered t = 0%nat.
Proof.
  induction t as [|ev t IH]; simpl; [tauto|].
  destruct (isBuffered ev); simpl; [split; [discriminate | lia] | exact IH].
Qed.

Lemma disciplined_replicate_RetryDone ok b (n : nat) :
  disciplined ok b (replicate n EvRetryDone).
Proof.
  revert b. induction n as [|n IH]; intros b; simpl; [exact I|].
  split; [discriminate|]. apply IH.
Qed.

(** The discipline, read at any consultation of the buffer. *)
Lemma disciplined_split ok b (t t1 t2 : list Event) ev :
  disciplined ok b t → t = t1 ++ ev :: t2 → isBufferWait ev = true →
  ok ∧ b = false ∧ countIf isBuffered t1 = 0%nat.
Proof.
  intros Hd -> Hev. apply disciplined_app in Hd as [_ Hd].
  simpl in Hd. destruct Hd as [Hd _]. destruct (Hd Hev) as [Hok Hb].
  apply orb_false_iff in Hb as [-> Hb]. apply hasBuffered_countIf in Hb. auto.
Qed.

Section RetryLoop.

Context {E : Env}.
Variable flags : Flags.
Implicit Types (w : World E) (ls : LoopState (World E)).

Lemma retryLoop_countInner (n : nat) dg target inTransaction (inner : Action E) ls w :
  returns (retryLoop E flags n dg target inTransaction inner ls) w
    (λ _ _ t, (countInner t ≤ n)%nat).
Proof.
  revert ls w. induction n as [|n IH]; intros ls w.
  - apply returns_ret. cbn. lia.
  - cbn [retryLoop]. apply returns_bind.
    eapply returns_mono; [apply attempt_countInner|].
    intros c w1 t1 Ht1. cbv beta in Ht1. destruct c as [ls1 | ls1].
    + apply returns_ret. rewrite app_nil_r. lia.
    + eapply returns_mono; [apply IH|].
      intros ls2 w2 t2 Ht2. cbv beta in Ht2. rewrite countInner_app. lia.
Qed.

Lemma countInner_replicate_RetryDone (n : nat) : countInner (replicate n EvRetryDone) = 0%nat.
Proof. induction n as [|n IH]; [reflexivity | exact IH]. Qed.

Lemma withRetry_countInner dg target inTransaction (inner : Action E) w :
  returns (withRetry E flags dg target inTransaction inner) w
    (λ _ _ t, (countInner t ≤ maxAttempts dg)%nat).
Proof.
  unfold withRetry. destruct (checkAllowedTabletTypes flags target).
  - apply returns_ret. cbn. lia.
  - apply returns_bind. eapply returns_mono; [apply retryLoop_countInner|].
    intros ls w1 t1 Ht1. cbv beta in Ht1. apply returns_bind.
    eapply returns_mono; [apply returns_runDeferred|].
    intros _ w2 t2 ->. apply returns_ret.
    rewrite app_nil_r, countInner_app, countInner_replicate_RetryDone. lia.
Qed.

(** *** The buffer discipline *)

Lemma attempt_disciplined dg target inTransaction (inner : Action E) ls w :
  returns (attempt E flags dg target inTransaction inner ls) w
    (λ c _ t,
       disciplined (TargetTabletType target = TabletType_MASTER ∧ inTransaction = false)
         (bufferedOnce ls) t ∧
       bufferedOnce (stateOf c) = bufferedOnce ls || hasBuffered t).
Proof.
  unfold attempt, bufferStep, healthyTablets.
  repeat step; cbn;
    repeat match goal with
    | H : _ && _ = true |- _ => apply andb_true_iff in H as [? ?]
    | H : negb _ = true |- _ => apply negb_true_iff in H
    | H : bool_decide _ = true |- _ => apply bool_decide_eq_true_1 in H
    end;
    rewrite ?orb_false_r, ?orb_true_r;
    repeat split; try discriminate; try assumption; try (intros; assumption);
    try (intros; congruence);
    match goal with
    | |- context [match ?x with Some _ => _ | None => _ end] =>
        destruct x; cbn; rewrite ?orb_false_r; reflexivity
    end.
Qed.

Lemma retryLoop_disciplined (n : nat) dg target inTransaction (inner : Action E) ls w :
  returns (retryLoop E flags n dg target inTransaction inner ls) w
    (λ ls' _ t,
       disciplined (TargetTabletType target = TabletType_MASTER ∧ inTransaction = false)
         (bufferedOnce ls) t ∧
       bufferedOnce ls' = bufferedOnce ls || hasBuffered t).
Proof.
  revert ls w. induction n as [|n IH]; intros ls w.
  - apply returns_ret. cbn. rewrite orb_false_r. auto.
  - cbn [retryLoop]. apply returns_bind.
    eapply returns_mono; [apply attempt_disciplined|].
    intros c w1 t1 [Hd1 Hb1]. destruct c as [ls1 | ls1]; cbn [stateOf] in Hb1.
    + apply returns_ret. rewrite app_nil_r. auto.
    + eapply returns_mono; [apply IH|].
      intros ls2 w2 t2 [Hd2 Hb2]. split.
      * apply disciplined_app. rewrite <- Hb1. auto.
      * rewrite hasBuffered_app, orb_assoc, <- Hb1. exact Hb2.
Qed.

Lemma withRetry_disciplined dg target inTransaction (inner : Action E) w :
  returns (withRetry E flags dg target inTransaction inner) w
    (λ _ _ t,
       disciplined (TargetTabletType target = TabletType_MASTER ∧ inTransaction = false)
         false t).
Proof.
  unfold withRetry. destruct (checkAllowedTabletTypes flags target).
  - apply returns_ret. exact I.
  - apply returns_bind. eapply returns_mono; [apply retryLoop_disciplined|].
    intros ls w1 t1 [Hd1 _]. apply returns_bind.
    eapply returns_mono; [apply returns_runDeferred|].
    intros _ w2 t2 ->. apply returns_ret.
    apply disciplined_app. split; [exact Hd1|].
    rewrite app_nil_r. apply disciplined_replicate_RetryDone.
Qed.

End RetryLoop.

(** ** Attempts, evaluated *)

Section Exact.

Context {E : Env}.
Variable flags : Flags.
Implicit Types (w : World E) (ls : LoopState (World E)).

Lemma returns_eq {A} (m : M E A) w a w1 t (Q : A → World E → list Event → Prop) :
  m w = Ret (a, w1, t) → Q a w1 t → returns m w Q.
Proof. intros Hm HQ. exists a, w1, t. auto. Qed.

Lemma returns_exact {A} (m : M E A) w (x : A * World E * list Event) :
  returns m w (λ a w' t, (a, w', t) = x) → m w = Ret x.
Proof. intros (a & w' & t & Hm & <-). exact Hm. Qed.


Lemma maxAttempts_le dg :
  0 ≤ retryCount dg → Z.of_nat (maxAttempts dg) ≤ retryCount dg + 1.
Proof.
  intros H. unfold maxAttempts.
  pose proof (int_add_le (retryCount dg) 1). unfold int_min in *. lia.
Qed.

(** *** firstValid *)

Lemma firstValid_None (invalid : gmap string bool) (l : list LegacyTabletStats) :
  (∀ t, t ∈ l → is_Some (invalid !! Key t)) → firstValid invalid l = None.
Proof.
  induction l as [|t l IH]; intros Hall; [reflexivity|]. simpl.
  destruct (Hall t) as [b Hb]; [left|]. rewrite Hb.
  apply IH. intros t' Ht'. apply Hall. right. exact Ht'.
Qed.


(** *** The buffer step *)


(** Going on after the buffer keeps [err] and [invalidTablets]. *)
Lemma bufferStep_proceeds target inTransaction ls w ls1 w1 tb :
  bufferStep E target inTransaction ls w = Ret (inr ls1, w1, tb) →
  err ls1 = err ls ∧ invalidTablets ls1 = invalidTablets ls ∧
  Forall (λ ev, quietEvent ev = true) tb.
Proof.
  unfold bufferStep.
  destruct (negb (bufferedOnce ls) && negb inTransaction
            && bool_decide (TargetTabletType target = TabletType_MASTER)).
  - unfold bind, WaitForFailoverEnd.
    destruct (buffer_WaitForFailoverEnd E (Keyspace target) (Shard target) (err ls) w)
      as [[rd be] w']. destruct be; [cbn; discriminate|].
    destruct rd; cbn; intros [= <- <- <-]; repeat split; repeat constructor.
  - cbn. intros [= <- <- <-]. auto.
Qed.

Lemma quiet_trace (t : list Event) :
  Forall (λ ev, quietEvent ev = true) t → connectionKeys t = [] ∧ countInner t = 0%nat.
Proof.
  induction 1 as [|ev t Hev _ [IHk IHc]]; [split; reflexivity|].
  destruct ev; try discriminate Hev; split; assumption.
Qed.

(** *** The snapshot *)

Lemma healthyTablets_quiet target w tablets w1 ts :
  healthyTablets E flags target w = Ret (tablets, w1, ts) →
  Forall (λ ev, quietEvent ev = true) ts.
Proof.
  unfold healthyTablets, bind, GetHealthyTabletStats, ret.
  destruct (tsc_GetHealthyTabletStats E (Keyspace target) (Shard target)
              (TargetTabletType target) w) as [r w'].
  destruct (routeReplicaToRdonly flags
            && bool_decide (TargetTabletType target = TabletType_REPLICA)).
  - destruct (tsc_GetHealthyTabletStats E (Keyspace target) (Shard target)
                TabletType_RDONLY w') as [o w''].
    intros [= <- <- <-]. repeat constructor.
  - intros [= <- <- <-]. repeat constructor.
Qed.

(** Up to the snapshot, an attempt asks for no connection and does not
    invoke the action. *)
Lemma attempt_prefix_quiet target inTransaction ls w ls1 w1 tb tablets w2 ts :
  bufferStep E target inTransaction ls w = Ret (inr ls1, w1, tb) →
  healthyTablets E flags target w1 = Ret (tablets, w2, ts) →
  connectionKeys (tb ++ ts) = [] ∧ countInner (tb ++ ts) = 0%nat.
Proof.
  intros Hbuf Hsnap. apply quiet_trace. apply Forall_app. split.
  - apply (bufferStep_proceeds _ _ _ _ _ _ _ Hbuf).
  - apply (healthyTablets_quiet _ _ _ _ _ Hsnap).
Qed.


(** *** An attempt that finds no healthy tablet *)

Lemma attempt_no_healthy_tablet dg target inTransaction (inner : Action E)
    ls w ls1 w1 tb w2 ts :
  bufferStep E target inTransaction ls w = Ret (inr ls1, w1, tb) →
  healthyTablets E flags target w1 = Ret ([], w2, ts) →
  attempt E flags dg target inTransaction inner ls w =
    Ret (Break (mkLoop (Some (VtError Code_UNAVAILABLE (MsgNoHealthyTablet target)))
                  (invalidTablets ls1) (bufferedOnce ls1) (deferred ls1)),
         w2, tb ++ ts).
Proof.
  intros Hbuf Hsnap. apply returns_exact. unfold attempt.
  apply returns_bind. eapply returns_eq; [exact Hbuf|]. cbv beta iota.
  apply returns_bind. eapply returns_eq; [exact Hsnap|]. cbv beta.
  rewrite bool_decide_eq_true_2 by reflexivity.
  apply returns_ret. rewrite app_nil_r. reflexivity.
Qed.

(** *** An attempt that finds every candidate marked invalid *)

Lemma attempt_all_invalid dg target inTransaction (inner : Action E)
    ls w ls1 w1 tb tablets w2 ts :
  bufferStep E target inTransaction ls w = Ret (inr ls1, w1, tb) →
  healthyTablets E flags target w1 = Ret (tablets, w2, ts) →
  tablets ≠ [] →
  (∀ t, t ∈ tablets → is_Some (invalidTablets ls !! Key t)) →
  returns (attempt E flags dg target inTransaction inner ls) w (λ c _ t,
    c = Break (mkLoop
                 (Some (default (VtError Code_UNAVAILABLE MsgNoAvailableConnection) (err ls)))
                 (invalidTablets ls1) (bufferedOnce ls1) (deferred ls1)) ∧
    t = tb ++ ts).
Proof.
  intros Hbuf Hsnap Hne Hall.
  destruct (bufferStep_proceeds _ _ _ _ _ _ _ Hbuf) as (Herr & Hinv & _).
  unfold attempt. apply returns_bind. eapply returns_eq; [exact Hbuf|]. cbv beta iota.
  apply returns_bind. eapply returns_eq; [exact Hsnap|]. cbv beta.
  rewrite bool_decide_eq_false_2 by (destruct tablets; [congruence | discriminate]).
  apply returns_bind. apply returns_shuffleTablets. intros tablets1 w3 Hperm _.
  rewrite firstValid_None.
  - apply returns_ret. rewrite Herr. split.
    + destruct (err ls); reflexivity.
    + rewrite !app_nil_r. reflexivity.
  - intros t Ht. rewrite Hinv. apply Hall. rewrite <- Hperm. exact Ht.
Qed.

(** *** The loop, after attempts that continue *)

Lemma retryLoop_continues dg target inTransaction (inner : Action E)
    (k m : nat) ls0 w0 ls w t0 ls' w' t :
  continues E flags dg target inTransaction inner k ls0 w0 ls w t0 →
  retryLoop E flags m dg target inTransaction inner ls w = Ret (ls', w', t) →
  retryLoop E flags (k + m) dg target inTransaction inner ls0 w0 = Ret (ls', w', t0 ++ t).
Proof.
  intros Hk Hm. induction Hk as [ls w | k ls0 w0 ls1 w1 t1 ls w t2 Hattempt _ IH].
  - exact Hm.
  - specialize (IH Hm). cbn [Nat.add retryLoop]. unfold bind.
    rewrite Hattempt, IH. rewrite app_assoc. reflexivity.
Qed.

(** *** withRetry, once the loop has run *)

Lemma withRetry_after_loop dg target inTransaction (inner : Action E) w ls w1 t :
  checkAllowedTabletTypes flags target = None →
  retryLoop E flags (maxAttempts dg) dg target inTransaction inner (mkLoop None ∅ false []) w
    = Ret (ls, w1, t) →
  ∃ w2, withRetry E flags dg target inTransaction inner w =
    Ret (NewShardError (err ls) target, w2,
         t ++ replicate (length (deferred ls)) EvRetryDone).
Proof.
  intros Hallowed Hloop. unfold withRetry. rewrite Hallowed.
  destruct (returns_runDeferred (deferred ls) w1) as ([] & w2 & t2 & Hrun & ->).
  exists w2. unfold bind at 1. rewrite Hloop. unfold bind. rewrite Hrun. cbn.
  rewrite app_nil_r. reflexivity.
Qed.

Lemma retryLoop_returns (n : nat) dg target inTransaction (inner : Action E) ls w :
  ∃ ls' w' t, retryLoop E flags n dg target inTransaction inner ls w = Ret (ls', w', t).
Proof.
  destruct (retryLoop_countInner flags n dg target inTransaction inner ls w)
    as (ls' & w' & t & H & _). eauto.
Qed.

(** *** The allowed tablet types *)

Lemma matchAllowed_In allowed tabletType :
  matchAllowed allowed tabletType = true ↔ tabletType ∈ allowed.
Proof.
  induction allowed as [|a allowed IH]; simpl.
  - split; [discriminate | intros H; inversion H].
  - case_bool_decide as Ha.
    + subst. split; [intros _; left | reflexivity].
    + rewrite IH. split; [intros H; right; exact H|].
      intros H. inversion H; subst; [congruence | assumption].
Qed.

End Exact.

(** ** The claims *)

(** C1.  A call to withRetry invokes the action at most retry_count + 1
    times; with retry_count = 0 it invokes it at most once, so that a
    retryable error is not retried within the call. *)
Theorem withRetry_invokes_action_at_most_retryCount_plus_one
    (E : Env) (flags : Flags) (dg : DiscoveryGateway) (target : Target)
    (inTransaction : bool) (inner : Action E) (w : World E) :
  0 ≤ retryCount dg →
  ∃ r w' t,
    withRetry E flags dg target inTransaction inner w = Ret (r, w', t) ∧
    Z.of_nat (countInner t) ≤ retryCount dg + 1 ∧
    (retryCount dg = 0 → (countInner t ≤ 1)%nat).
Proof.
  intros Hrc.
  destruct (withRetry_countInner flags dg target inTransaction inner w)
    as (r & w' & t & Hrun & Hcount).
  pose proof (maxAttempts_le dg Hrc) as Hmax.
  exists r, w', t. split; [exact Hrun|]. split; [lia|].
  intros H0. rewrite H0 in Hmax. lia.
Qed.

Lemma withRetry_invokes_action_at_most_retryCount_plus_one_witness :
  ∃ r w' t,
    withRetry Demo.env Demo.flags (Demo.gateway 0) (Demo.target "ks" TabletType_REPLICA)
      false Demo.alwaysRetry 0%nat = Ret (r, w', t) ∧
    (countInner t ≤ 1)%nat.
Proof.
  destruct (withRetry_invokes_action_at_most_retryCount_plus_one
              Demo.env Demo.flags (Demo.gateway 0) (Demo.target "ks" TabletType_REPLICA)
              false Demo.alwaysRetry 0%nat) as (r & w' & t & Hrun & _ & Hone).
  - simpl. lia.
  - exists r, w', t. split; [exact Hrun|]. apply Hone. reflexivity.
Defined.

(** C2.  Within one call to withRetry, whenever the failover buffer is
    consulted the target is MASTER, the request is not in a transaction
    and the request has not been buffered earlier in the call: once a
    buffering succeeded, the buffer is not entered again, whatever the
    number of attempts that follow. *)
Theorem withRetry_buffers_master_once
    (E : Env) (flags : Flags) (dg : DiscoveryGateway) (target : Target)
    (inTransaction : bool) (inner : Action E) (w : World E) :
  ∃ r w' t,
    withRetry E flags dg target inTransaction inner w = Ret (r, w', t) ∧
    ∀ t1 ev t2,
      t = t1 ++ ev :: t2 → isBufferWait ev = true →
      TargetTabletType target = TabletType_MASTER ∧ inTransaction = false ∧
      countIf isBuffered t1 = 0%nat.
Proof.
  destruct (withRetry_disciplined flags dg target inTransaction inner w)
    as (r & w' & t & Hrun & Hd).
  exists r, w', t. split; [exact Hrun|].
  intros t1 ev t2 Ht Hev.
  destruct (disciplined_split _ _ _ _ _ _ Hd Ht Hev) as ([Hm Htx] & _ & Hcount).
  auto.
Qed.

Lemma withRetry_buffers_master_once_witness :
  ∃ r w' t,
    withRetry Demo.env Demo.flags (Demo.gateway 2) (Demo.target "ks" TabletType_MASTER)
      false Demo.alwaysRetry 0%nat = Ret (r, w', t) ∧
    ∃ ev t2,
      t = [] ++ ev :: t2 ∧ isBufferWait ev = true ∧
      TargetTabletType (Demo.target "ks" TabletType_MASTER) = TabletType_MASTER.
Proof.
  destruct (withRetry_buffers_master_once
              Demo.env Demo.flags (Demo.gateway 2) (Demo.target "ks" TabletType_MASTER)
              false Demo.alwaysRetry 0%nat) as (r & w' & t & Hrun & Hall).
  pose proof Hrun as Hc. vm_compute in Hc.
  injection Hc as Hr Hw Ht. subst r w' t.
  eexists _, _, _. split; [exact Hrun|].
  eexists _, _. split; [reflexivity|]. split; [reflexivity|].
  destruct (Hall [] _ _ eq_refl eq_refl) as (Hmaster & _ & _). exact Hmaster.
Defined.

(** C3.  An attempt whose snapshot of healthy tablets (after the
    READ_ONLY union, when it applies) is empty ends the call: withRetry
    returns an UNAVAILABLE error, wrapped with the target, and from that
    attempt on the action is not invoked and nothing is retried, however
    many attempts are left.  When it is the first attempt, the action was
    not invoked at all. *)
Theorem withRetry_no_healthy_tablet_unavailable
    (E : Env) (flags : Flags) (dg : DiscoveryGateway) (target : Target)
    (inTransaction : bool) (inner : Action E)
    (k n : nat) (w0 : World E) (t0 : list Event)
    (ls : LoopState (World E)) (w : World E)
    (ls1 : LoopState (World E)) (w1 : World E) (tb : list Event)
    (w2 : World E) (ts : list Event) :
  checkAllowedTabletTypes flags target = None →
  maxAttempts dg = (k + S n)%nat →
  continues E flags dg target inTransaction inner k (mkLoop None ∅ false []) w0 ls w t0 →
  bufferStep E target inTransaction ls w = Ret (inr ls1, w1, tb) →
  healthyTablets E flags target w1 = Ret ([], w2, ts) →
  ∃ w3 t,
    withRetry E flags dg target inTransaction inner w0 =
      Ret (Some (ShardError (VtError Code_UNAVAILABLE (MsgNoHealthyTablet target)) target),
           w3, t) ∧
    t = t0 ++ (tb ++ ts) ++ replicate (length (deferred ls1)) EvRetryDone ∧
    countInner (tb ++ ts) = 0%nat ∧
    countInner t = countInner t0 ∧
    (k = 0%nat → countInner t = 0%nat).
Proof.
  intros Hallowed Hmax Hk Hbuf Hsnap.
  assert (Hloop : retryLoop E flags (S n) dg target inTransaction inner ls w =
    Ret (mkLoop (Some (VtError Code_UNAVAILABLE (MsgNoHealthyTablet target)))
           (invalidTablets ls1) (bufferedOnce ls1) (deferred ls1),
         w2, tb ++ ts)).
  { cbn [retryLoop]. unfold bind at 1.
    rewrite (attempt_no_healthy_tablet flags dg target inTransaction inner
               ls w ls1 w1 tb w2 ts Hbuf Hsnap).
    cbn. rewrite app_nil_r. reflexivity. }
  assert (Hcount : countInner (tb ++ ts) = 0%nat)
    by apply (attempt_prefix_quiet flags _ _ _ _ _ _ _ _ _ _ Hbuf Hsnap).
  pose proof (retryLoop_continues flags _ _ _ _ _ _ _ _ _ _ _ _ _ _ Hk Hloop) as Hwhole.
  rewrite <- Hmax in Hwhole.
  destruct (withRetry_after_loop flags dg target inTransaction inner _ _ _ _ Hallowed Hwhole)
    as (w3 & Hrun).
  cbn [err deferred NewShardError] in Hrun.
  assert (Htotal : countInner (t0 ++ (tb ++ ts) ++ replicate (length (deferred ls1)) EvRetryDone)
                   = countInner t0).
  { rewrite !countInner_app in *. rewrite countInner_replicate_RetryDone. lia. }
  eexists w3, _. split; [|split; [reflexivity|]].
  - rewrite Hrun. rewrite <- app_assoc. reflexivity.
  - split; [exact Hcount|]. split; [exact Htotal|].
    intros ->. rewrite Htotal. inversion Hk; subst. reflexivity.
Qed.

Lemma withRetry_no_healthy_tablet_unavailable_witness :
  ∃ w3 t,
    withRetry Demo.env Demo.flags (Demo.gateway 2) (Demo.target "ks" TabletType_SPARE)
      false Demo.alwaysRetry 0%nat =
      Ret (Some (ShardError
                   (VtError Code_UNAVAILABLE
                      (MsgNoHealthyTablet (Demo.target "ks" TabletType_SPARE)))
                   (Demo.target "ks" TabletType_SPARE)), w3, t) ∧
    countInner t = 0%nat.
Proof.
  destruct (withRetry_no_healthy_tablet_unavailable
              Demo.env Demo.flags (Demo.gateway 2) (Demo.target "ks" TabletType_SPARE)
              false Demo.alwaysRetry 0 2 0%nat [] (mkLoop None ∅ false []) 0%nat
              (mkLoop None ∅ false []) 0%nat [] 0%nat
              [EvGetHealthyTabletStats "ks" "0" TabletType_SPARE []])
    as (w3 & t & Hrun & _ & _ & _ & Hzero).
  - reflexivity.
  - reflexivity.
  - constructor.
  - reflexivity.
  - reflexivity.
  - exists w3, t. split; [exact Hrun | apply Hzero; reflexivity].
Defined.

(** C4, as stated, fails.  With retry_count = 2 and an action that
    reports a retryable INTERNAL error on three distinct tablets, the loop
    is over after the third attempt and the call returns the third error
    of the action, wrapped: there is no fourth iteration.  With
    retry_count = 3 the fourth iteration finds every candidate marked
    invalid and the call still returns the error of the last attempt,
    not UNAVAILABLE. *)
Lemma withRetry_exhausted_returns_last_error :
  (∃ w t,
     withRetry Demo.env Demo.flags (Demo.gateway 2) (Demo.target "ks" TabletType_REPLICA)
       false Demo.alwaysRetry 0%nat =
       Ret (Some (ShardError Demo.failure (Demo.target "ks" TabletType_REPLICA)), w, t) ∧
     connectionKeys t = ["r2"; "r3"; "r1"] ∧
     countInner t = 3%nat ∧ countIf isSnapshot t = 3%nat) ∧
  (∃ w t,
     withRetry Demo.env Demo.flags (Demo.gateway 3) (Demo.target "ks" TabletType_REPLICA)
       false Demo.alwaysRetry 0%nat =
       Ret (Some (ShardError Demo.failure (Demo.target "ks" TabletType_REPLICA)), w, t) ∧
     connectionKeys t = ["r2"; "r3"; "r1"] ∧
     countInner t = 3%nat ∧ countIf isSnapshot t = 4%nat) ∧
  (∀ msg,
     ShardError Demo.failure (Demo.target "ks" TabletType_REPLICA) ≠
     ShardError (VtError Code_UNAVAILABLE msg) (Demo.target "ks" TabletType_REPLICA)) ∧
  vterrors_Code Demo.env (ShardError Demo.failure (Demo.target "ks" TabletType_REPLICA))
    = Code_INTERNAL.
Proof.
  split; [|split; [|split]].
  - eexists _, _. split; [vm_compute; reflexivity|]. vm_compute. auto.
  - eexists _, _. split; [vm_compute; reflexivity|]. vm_compute. auto.
  - intros msg. discriminate.
  - reflexivity.
Qed.

(** C4, amended.  When an attempt finds every candidate tablet marked
    invalid for the request, the call ends there without asking for a
    connection or invoking the action, and withRetry returns the error the
    preceding attempt left, wrapped with the target metadata; the error is
    UNAVAILABLE ("no available connection") only when no error was left.
    When the retry_count + 1 attempts are used up first, there is no
    further iteration and withRetry returns the error the last attempt left,
    wrapped the same way. *)
Theorem withRetry_all_invalid_keeps_last_error
    (E : Env) (flags : Flags) (dg : DiscoveryGateway) (target : Target)
    (inTransaction : bool) (inner : Action E)
    (k : nat) (w0 : World E) (t0 : list Event)
    (ls : LoopState (World E)) (w : World E) :
  checkAllowedTabletTypes flags target = None →
  continues E flags dg target inTransaction inner k (mkLoop None ∅ false []) w0 ls w t0 →
  (∀ n ls1 w1 tb tablets w2 ts,
     maxAttempts dg = (k + S n)%nat →
     bufferStep E target inTransaction ls w = Ret (inr ls1, w1, tb) →
     healthyTablets E flags target w1 = Ret (tablets, w2, ts) →
     tablets ≠ [] →
     Forall (λ t, is_Some (invalidTablets ls !! Key t)) tablets →
     ∃ w3 t,
       withRetry E flags dg target inTransaction inner w0 =
         Ret (Some (ShardError
                      (default (VtError Code_UNAVAILABLE MsgNoAvailableConnection) (err ls))
                      target),
              w3, t) ∧
       t = t0 ++ (tb ++ ts) ++ replicate (length (deferred ls1)) EvRetryDone ∧
       connectionKeys (tb ++ ts) = [] ∧ countInner (tb ++ ts) = 0%nat) ∧
  (maxAttempts dg = k →
   ∃ w3,
     withRetry E flags dg target inTransaction inner w0 =
       Ret (NewShardError (err ls) target, w3,
            t0 ++ replicate (length (deferred ls)) EvRetryDone)).
Proof.
  intros Hallowed Hk. split.
  - intros n ls1 w1 tb tablets w2 ts Hmax Hbuf Hsnap Hne Hall.
    destruct (attempt_all_invalid flags dg target inTransaction inner
                ls w ls1 w1 tb tablets w2 ts Hbuf Hsnap Hne)
      as (c & w' & t & Hattempt & -> & ->).
    { intros t Ht. rewrite Forall_forall in Hall. apply Hall. exact Ht. }
    assert (Hloop : retryLoop E flags (S n) dg target inTransaction inner ls w =
      Ret (mkLoop (Some (default (VtError Code_UNAVAILABLE MsgNoAvailableConnection) (err ls)))
             (invalidTablets ls1) (bufferedOnce ls1) (deferred ls1),
           w', tb ++ ts)).
    { cbn [retryLoop]. unfold bind. rewrite Hattempt. cbn. rewrite app_nil_r. reflexivity. }
    pose proof (retryLoop_continues flags _ _ _ _ _ _ _ _ _ _ _ _ _ _ Hk Hloop) as Hwhole.
    rewrite <- Hmax in Hwhole.
    destruct (withRetry_after_loop flags dg target inTransaction inner _ _ _ _
                Hallowed Hwhole) as (w3 & Hrun).
    cbn [err deferred NewShardError] in Hrun.
    eexists w3, _. split; [|split; [reflexivity|]].
    + rewrite Hrun. rewrite <- app_assoc. reflexivity.
    + apply (attempt_prefix_quiet flags _ _ _ _ _ _ _ _ _ _ Hbuf Hsnap).
  - intros Hmax.
    assert (Hloop : retryLoop E flags 0 dg target inTransaction inner ls w = Ret (ls, w, []))
      by reflexivity.
    pose proof (retryLoop_continues flags _ _ _ _ _ _ _ _ _ _ _ _ _ _ Hk Hloop) as Hwhole.
    rewrite Nat.add_0_r, <- Hmax, app_nil_r in Hwhole.
    apply (withRetry_after_loop flags dg target inTransaction inner _ _ _ _ Hallowed Hwhole).
Qed.

Lemma withRetry_all_invalid_keeps_last_error_witness :
  (∃ w3 t,
     withRetry Demo.env Demo.flags (Demo.gateway 3) (Demo.target "ks" TabletType_REPLICA)
       false Demo.alwaysRetry 0%nat =
       Ret (Some (ShardError Demo.failure (Demo.target "ks" TabletType_REPLICA)), w3, t)) ∧
  (∃ w3,
     withRetry Demo.env Demo.flags (Demo.gateway 2) (Demo.target "ks" TabletType_REPLICA)
       false Demo.alwaysRetry 0%nat =
       Ret (Some (ShardError Demo.failure (Demo.target "ks" TabletType_REPLICA)), w3,
            Demo.firstThreeAttempts ++ [])).
Proof.
  assert (Hthree : ∀ retryCount,
    continues Demo.env Demo.flags (Demo.gateway retryCount)
      (Demo.target "ks" TabletType_REPLICA) false Demo.alwaysRetry 3
      (mkLoop None ∅ false []) 0%nat Demo.allReplicasTried 3%nat Demo.firstThreeAttempts).
  { intros retryCount. unfold Demo.firstThreeAttempts.
    eapply continues_S with (ls1 := Demo.triedReplicas ["r2"]) (w1 := 1%nat);
      [vm_compute; reflexivity|].
    eapply continues_S with (ls1 := Demo.triedReplicas ["r3"; "r2"]) (w1 := 2%nat);
      [vm_compute; reflexivity|].
    eapply continues_S with (ls1 := Demo.triedReplicas ["r1"; "r3"; "r2"]) (w1 := 3%nat);
      [vm_compute; reflexivity|].
    apply continues_O. }
  split.
  - destruct (withRetry_all_invalid_keeps_last_error
                Demo.env Demo.flags (Demo.gateway 3) (Demo.target "ks" TabletType_REPLICA)
                false Demo.alwaysRetry 3 0%nat Demo.firstThreeAttempts
                Demo.allReplicasTried 3%nat eq_refl (Hthree 3)) as [Hinvalid _].
    destruct (Hinvalid 0%nat Demo.allReplicasTried 3%nat [] Demo.replicas 3%nat
                [EvGetHealthyTabletStats "ks" "0" TabletType_REPLICA Demo.replicas])
      as (w3 & t & Hrun & _).
    + reflexivity.
    + reflexivity.
    + reflexivity.
    + discriminate.
    + apply (bool_decide_unpack _). vm_compute. exact I.
    + exists w3, t. exact Hrun.
  - destruct (withRetry_all_invalid_keeps_last_error
                Demo.env Demo.flags (Demo.gateway 2) (Demo.target "ks" TabletType_REPLICA)
                false Demo.alwaysRetry 3 0%nat Demo.firstThreeAttempts
                Demo.allReplicasTried 3%nat eq_refl (Hthree 2)) as [_ Hused].
    destruct Hused as (w3 & Hrun); [reflexivity|].
    exists w3. exact Hrun.
Defined.

(** C5.  Whatever the list of tablets, the local cell and the draws of
    math/rand, shuffleTablets returns a permutation of its input in which
    every tablet of the local cell comes before every tablet of another
    cell. *)
Theorem shuffleTablets_permutes_same_cell_first
    (E : Env) (cell : string) (tablets : list LegacyTabletStats) (w : World E) :
  ∃ tablets' w',
    shuffleTablets E cell tablets w = Ret (tablets', w', []) ∧
    tablets' ≡ₚ tablets ∧
    cellPartitioned cell tablets'.
Proof.
  destruct (shuffleTablets_spec cell tablets w) as (l' & w' & t & Hrun & -> & Hperm & Hpart).
  exists l', w'. auto.
Qed.



(** C7.  When the list of allowed tablet types is not empty and does not
    contain the tablet type of the target, withRetry returns a
    FAILED_PRECONDITION error at once: the world is unchanged and no
    collaborator was called.  When the list is empty the check lets every
    tablet type through. *)
Theorem withRetry_rejects_disallowed_tablet_type
    (E : Env) (flags : Flags) (dg : DiscoveryGateway) (target : Target)
    (inTransaction : bool) (inner : Action E) (w : World E) :
  (AllowedTabletTypes flags ≠ [] →
   TargetTabletType target ∉ AllowedTabletTypes flags →
   withRetry E flags dg target inTransaction inner w =
     Ret (Some (VtError Code_FAILED_PRECONDITION
                  (MsgTabletTypeNotAllowed (TargetTabletType target)
                     (AllowedTabletTypes flags))),
          w, [])) ∧
  (AllowedTabletTypes flags = [] → checkAllowedTabletTypes flags target = None).
Proof.
  split.
  - intros Hne Hnotin. unfold withRetry, checkAllowedTabletTypes.
    rewrite bool_decide_eq_true_2
      by (destruct (AllowedTabletTypes flags); [congruence | simpl; lia]).
    destruct (matchAllowed (AllowedTabletTypes flags) (TargetTabletType target)) eqn:Hm.
    + apply matchAllowed_In in Hm. contradiction.
    + reflexivity.
  - intros Hnil. unfold checkAllowedTabletTypes. rewrite Hnil. reflexivity.
Qed.

Lemma withRetry_rejects_disallowed_tablet_type_witness :
  withRetry Demo.env Demo.flagsMasterOnly (Demo.gateway 2) (Demo.target "ks" TabletType_REPLICA)
    false Demo.alwaysRetry 0%nat =
    Ret (Some (VtError Code_FAILED_PRECONDITION
                 (MsgTabletTypeNotAllowed TabletType_REPLICA [TabletType_MASTER])),
         0%nat, []) ∧
  checkAllowedTabletTypes Demo.flags (Demo.target "ks" TabletType_REPLICA) = None.
Proof.
  split.
  - apply (withRetry_rejects_disallowed_tablet_type
             Demo.env Demo.flagsMasterOnly (Demo.gateway 2)
             (Demo.target "ks" TabletType_REPLICA) false Demo.alwaysRetry 0%nat).
    + discriminate.
    + apply (bool_decide_unpack _). vm_compute. exact I.
  - apply (withRetry_rejects_disallowed_tablet_type
             Demo.env Demo.flags (Demo.gateway 2)
             (Demo.target "ks" TabletType_REPLICA) false Demo.alwaysRetry 0%nat).
    reflexivity.
Defined.

(** *** The constructor *)

Section Constructor.

Context {E : Env}.
Variable flags : Flags.



End Constructor.

(** C8.  The code breaks the claim: with -tablet_filters and
    -keyspaces_to_watch both given and -cells_to_watch empty,
    NewDiscoveryGateway returns a gateway (one that watches no cell)
    instead of ending the process.  The check does not depend on the
    cell, but it sits inside the loop over the cells and is skipped when
    the loop body never runs; with the same two filters and the cells
    [a,b] the process is ended with the message of the check. *)
Lemma NewDiscoveryGateway_both_filters_no_cell_returns :
  TabletFilters (Demo.flagsBothFilters "") ≠ [] ∧
  KeyspacesToWatch (Demo.flagsBothFilters "") ≠ [] ∧
  NewDiscoveryGateway Demo.env (Demo.flagsBothFilters "") true "a" 2 0%nat =
    Ret (mkGateway "a" 2 [], 0%nat, [EvGetTopoServer; EvSetListener true]) ∧
  NewDiscoveryGateway Demo.env (Demo.flagsBothFilters "a,b") true "a" 2 0%nat =
    Fatal "Only one of -keyspaces_to_watch and -tablet_filters may be specified at a time".
Proof.
  split; [discriminate|]. split; [discriminate|].
  split; vm_compute; reflexivity.
Qed.



(** C9.  StatsUpdate hands every health update to the tablet stats cache
    and hands it to the failover buffer exactly when the tablet type of
    the update's target is MASTER.  For a MASTER update the cache is
    called first and the buffer next, once each, and the world left is
    the one the buffer leaves after the cache; for any other tablet type
    the cache is called alone and the buffer is left alone. *)
Theorem StatsUpdate_forwards_to_buffer_iff_master
    (E : Env) (ts : LegacyTabletStats) (w : World E) :
  ∃ w' t,
    StatsUpdate E ts w = Ret (tt, w', t) ∧
    EvTscStatsUpdate ts ∈ t ∧
    (EvBufferStatsUpdate ts ∈ t ↔
     TargetTabletType (StatsTarget ts) = TabletType_MASTER) ∧
    (TargetTabletType (StatsTarget ts) ≠ TabletType_MASTER →
     t = [EvTscStatsUpdate ts] ∧ w' = tsc_StatsUpdate E ts w) ∧
    (TargetTabletType (StatsTarget ts) = TabletType_MASTER →
     t = [EvTscStatsUpdate ts; EvBufferStatsUpdate ts] ∧
     w' = buffer_StatsUpdate E ts (tsc_StatsUpdate E ts w)).
Proof.
  unfold StatsUpdate, bind, tscStatsUpdate, bufferStatsUpdate, ret.
  case_bool_decide as Hm.
  - eexists _, _. split; [reflexivity|]. split; [left|]. split; [|split].
    + split; [intros _; exact Hm | intros _; right; left].
    + intros Hne. contradiction.
    + intros _. split; reflexivity.
  - eexists _, _. split; [reflexivity|]. split; [left|]. split; [|split].
    + split; [|contradiction].
      intros Hin. apply elem_of_cons in Hin as [Heq | Hin]; [discriminate|].
      inversion Hin.
    + intros _. split; reflexivity.
    + intros Heq. contradiction.
Qed.

Lemma StatsUpdate_forwards_to_buffer_iff_master_witness :
  StatsUpdate Demo.envStats (Demo.tablet "m1" "a" "ks" TabletType_MASTER) 0%nat =
    Ret (tt, 12%nat,
         [EvTscStatsUpdate (Demo.tablet "m1" "a" "ks" TabletType_MASTER);
          EvBufferStatsUpdate (Demo.tablet "m1" "a" "ks" TabletType_MASTER)]) ∧
  StatsUpdate Demo.envStats (Demo.tablet "r1" "b" "ks" TabletType_REPLICA) 0%nat =
    Ret (tt, 1%nat, [EvTscStatsUpdate (Demo.tablet "r1" "b" "ks" TabletType_REPLICA)]).
Proof.
  split.
  - destruct (StatsUpdate_forwards_to_buffer_iff_master
                Demo.envStats (Demo.tablet "m1" "a" "ks" TabletType_MASTER) 0%nat)
      as (w' & t & Hrun & _ & _ & _ & Hmaster).
    destruct Hmaster as [Ht Hw]; [reflexivity|].
    rewrite Hrun, Ht, Hw. reflexivity.
  - destruct (StatsUpdate_forwards_to_buffer_iff_master
                Demo.envStats (Demo.tablet "r1" "b" "ks" TabletType_REPLICA) 0%nat)
      as (w' & t & Hrun & _ & _ & Hother & _).
    destruct Hother as [Ht Hw]; [discriminate|].
    rewrite Hrun, Ht, Hw. reflexivity.
Defined.

(** C10.  WaitForTablets with no tablet type to wait for returns nil at
    once: the topology server is not asked for targets and the stats cache
    is not waited on. *)
Theorem WaitForTablets_nothing_to_wait_for
    (E : Env) (flags : Flags) (dg : DiscoveryGateway) (w : World E) :
  WaitForTablets E flags dg [] w = Ret (None, w, []).
Proof. reflexivity. Qed.

(** * More properties *)

(** ** withRetry: what every call keeps *)

Section RetryInvariants.

Context {E : Env}.
Variable flags : Flags.
Implicit Types (w : World E) (ls : LoopState (World E)).

Lemma returns_conj {A} (m : M E A) w (P Q : A → World E → list Event → Prop) :
  returns m w P → returns m w Q → returns m w (λ a w' t, P a w' t ∧ Q a w' t).
Proof.
  intros (a & w' & t & Hm & HP) (a2 & w2 & t2 & Hm2 & HQ).
  rewrite Hm in Hm2. injection Hm2 as <- <- <-.
  exists a, w', t. auto.
Qed.

(** A property of traces that holds of nothing, of each attempt, of the
    deferred calls, and of two traces put together, holds of every call. *)
Lemma withRetry_trace_property (P : list Event → Prop)
    dg target inTransaction (inner : Action E) w :
  P [] →
  (∀ t1 t2, P t1 → P t2 → P (t1 ++ t2)) →
  (∀ n, P (replicate n EvRetryDone)) →
  (∀ ls w', returns (attempt E flags dg target inTransaction inner ls) w' (λ _ _ t, P t)) →
  returns (withRetry E flags dg target inTransaction inner) w (λ _ _ t, P t).
Proof.
  intros Hnil Happ Hdone Hattempt.
  assert (Hloop : ∀ n ls w',
    returns (retryLoop E flags n dg target inTransaction inner ls) w' (λ _ _ t, P t)).
  { induction n as [|n IH]; intros ls w'.
    - apply returns_ret. exact Hnil.
    - cbn [retryLoop]. apply returns_bind.
      eapply returns_mono; [apply Hattempt|].
      intros c w1 t1 Ht1. cbv beta in Ht1. destruct c as [ls1 | ls1].
      + apply returns_ret. apply Happ; assumption.
      + eapply returns_mono; [apply IH|].
        intros ls2 w2 t2 Ht2. apply Happ; assumption. }
  unfold withRetry. destruct (checkAllowedTabletTypes flags target).
  - apply returns_ret. exact Hnil.
  - apply returns_bind. eapply returns_mono; [apply Hloop|].
    intros ls w1 t1 Ht1. cbv beta in Ht1. apply returns_bind.
    eapply returns_mono; [apply returns_runDeferred|].
    intros _ w2 t2 ->. apply returns_ret.
    apply Happ; [exact Ht1|]. apply Happ; [apply Hdone | exact Hnil].
Qed.

Lemma countIf_replicate_RetryDone p (n : nat) :
  p EvRetryDone = false → countIf p (replicate n EvRetryDone) = 0%nat.
Proof. intros Hp. induction n as [|n IH]; simpl; [reflexivity | rewrite Hp; exact IH]. Qed.

(** *** Connections, invocations and stats go together *)

Lemma attempt_counts dg target inTransaction (inner : Action E) ls w :
  returns (attempt E flags dg target inTransaction inner ls) w (λ _ _ t,
    countIf isConnectionFound t = countInner t ∧
    countIf isUpdateQueryInfo t = countInner t).
Proof.
  unfold attempt, bufferStep, healthyTablets, countInner.
  repeat step; rewrite ?countIf_app; cbn; auto.
Qed.

Lemma withRetry_counts dg target inTransaction (inner : Action E) w :
  returns (withRetry E flags dg target inTransaction inner) w (λ _ _ t,
    countIf isConnectionFound t = countInner t ∧
    countIf isUpdateQueryInfo t = countInner t).
Proof.
  apply withRetry_trace_property.
  - split; reflexivity.
  - intros t1 t2 [H1 H2] [H3 H4]. unfold countInner in *.
    rewrite !countIf_app. lia.
  - intros n. unfold countInner.
    rewrite !countIf_replicate_RetryDone by reflexivity. auto.
  - intros ls w'. apply attempt_counts.
Qed.

(** *** Only tablets the cache reported are contacted *)

Lemma connectionKeys_app (t1 t2 : list Event) :
  connectionKeys (t1 ++ t2) = connectionKeys t1 ++ connectionKeys t2.
Proof.
  induction t1 as [|ev t1 IH]; [reflexivity|].
  destruct ev; simpl; rewrite ?IH; reflexivity.
Qed.

Lemma snapshotKeys_app (t1 t2 : list Event) :
  snapshotKeys (t1 ++ t2) = snapshotKeys t1 ++ snapshotKeys t2.
Proof.
  induction t1 as [|ev t1 IH]; [reflexivity|].
  destruct ev; simpl; rewrite ?IH, ?app_assoc; reflexivity.
Qed.

Lemma connectionKeys_replicate_RetryDone (n : nat) :
  connectionKeys (replicate n EvRetryDone) = [].
Proof. induction n as [|n IH]; [reflexivity | exact IH]. Qed.

Lemma firstValid_Some (invalid : gmap string bool) (l : list LegacyTabletStats) ts :
  firstValid invalid l = Some ts → ts ∈ l ∧ invalid !! Key ts = None.
Proof.
  induction l as [|t l IH]; simpl; [discriminate|].
  destruct (invalid !! Key t) eqn:Ht.
  - intros H. destruct (IH H) as [Hin Hn]. split; [right; exact Hin | exact Hn].
  - intros [= ->]. split; [left | exact Ht].
Qed.

Lemma attempt_contacts_reported dg target inTransaction (inner : Action E) ls w :
  returns (attempt E flags dg target inTransaction inner ls) w (λ _ _ t,
    ∀ k, k ∈ connectionKeys t → k ∈ snapshotKeys t).
Proof.
  unfold attempt, bufferStep, healthyTablets.
  repeat step; rewrite ?connectionKeys_app, ?snapshotKeys_app; cbn;
    intros k Hk; try (by inversion Hk);
    apply list_elem_of_singleton in Hk as ->;
    match goal with
    | H : firstValid _ _ = Some ?ts, Hp : _ ≡ₚ _ |- _ =>
        apply firstValid_Some in H as [H _]; rewrite Hp in H;
        rewrite ?app_nil_r;
        rewrite <- ?fmap_app; apply list_elem_of_fmap_2; exact H
    end.
Qed.

(** *** No tablet is tried twice *)

Lemma attempt_marks_invalid dg target inTransaction (inner : Action E) ls w :
  returns (attempt E flags dg target inTransaction inner ls) w (λ c _ t,
    (connectionKeys t = [] ∨
     ∃ k, connectionKeys t = [k] ∧ invalidTablets ls !! k = None ∧
          (∀ ls1, c = Continue ls1 → is_Some (invalidTablets ls1 !! k))) ∧
    (∀ k, is_Some (invalidTablets ls !! k) → is_Some (invalidTablets (stateOf c) !! k))).
Proof.
  unfold attempt, bufferStep, healthyTablets.
  repeat step; rewrite ?connectionKeys_app; cbn;
    (split;
     [ first
         [ left; reflexivity
         | right;
           match goal with
           | H : firstValid _ ?l = Some ?ts |- _ =>
               apply firstValid_Some in H as [_ H]; exists (Key ts);
               split; [reflexivity|]; split; [exact H|];
               intros ls1 Hc;
               first [ discriminate Hc
                     | injection Hc as <-; cbn; rewrite lookup_insert_eq; eauto ]
           end ]
     | intros k Hk;
       first
         [ exact Hk
         | destruct (decide (k = Key l)) as [->|Hne];
           [rewrite lookup_insert_eq; eauto
           | rewrite lookup_insert_ne by congruence; exact Hk] ] ]).
Qed.

Lemma retryLoop_no_tablet_twice (n : nat) dg target inTransaction (inner : Action E) ls w :
  returns (retryLoop E flags n dg target inTransaction inner ls) w (λ _ _ t,
    NoDup (connectionKeys t) ∧
    ∀ k, k ∈ connectionKeys t → invalidTablets ls !! k = None).
Proof.
  revert ls w. induction n as [|n IH]; intros ls w.
  - apply returns_ret. split; [constructor|]. intros k Hk. inversion Hk.
  - cbn [retryLoop]. apply returns_bind.
    eapply returns_mono; [apply attempt_marks_invalid|].
    intros c w1 t1 [Hkeys Hmono]. destruct c as [ls1 | ls1]; cbn [stateOf] in Hmono.
    + apply returns_ret. rewrite app_nil_r.
      destruct Hkeys as [-> | (k0 & -> & Hnone & _)].
      * split; [constructor|]. intros k Hk. inversion Hk.
      * split; [apply NoDup_singleton|].
        intros k Hk. apply list_elem_of_singleton in Hk as ->. exact Hnone.
    + eapply returns_mono; [apply IH|].
      intros ls2 w2 t2 [Hnodup Hfresh]. rewrite connectionKeys_app.
      assert (Hold : ∀ k, k ∈ connectionKeys t2 → invalidTablets ls !! k = None).
      { intros k Hk. specialize (Hfresh k Hk).
        destruct (invalidTablets ls !! k) eqn:Hl; [|reflexivity].
        destruct (Hmono k) as [b1 Hb1]; [eauto|]. congruence. }
      destruct Hkeys as [-> | (k0 & -> & Hnone & Hmarked)]; [split; assumption|].
      split.
      * apply NoDup_cons. split; [|exact Hnodup].
        intros Hin. specialize (Hfresh k0 Hin).
        destruct (Hmarked ls1 eq_refl) as [b1 Hb1]. congruence.
      * intros k Hk. apply elem_of_cons in Hk as [-> | Hk]; [exact Hnone | apply Hold, Hk].
Qed.

(** *** When the call reports no error *)

Lemma lastInnerErr_app (t1 t2 : list Event) :
  lastInnerErr (t1 ++ t2) =
  match lastInnerErr t2 with Some e => Some e | None => lastInnerErr t1 end.
Proof.
  induction t1 as [|ev t1 IH]; simpl.
  - destruct (lastInnerErr t2); reflexivity.
  - rewrite IH. destruct (lastInnerErr t2); reflexivity.
Qed.

Lemma lastInnerErr_replicate_RetryDone (n : nat) :
  lastInnerErr (replicate n EvRetryDone) = None.
Proof. induction n as [|n IH]; simpl; [reflexivity | rewrite IH; reflexivity]. Qed.

Lemma lastInnerErr_split (t : list Event) e :
  lastInnerErr t = Some e →
  ∃ t1 target canRetry t2,
    t = t1 ++ EvInner target canRetry e :: t2 ∧ countInner t2 = 0%nat.
Proof.
  induction t as [|ev t IH]; simpl; [discriminate|].
  destruct (lastInnerErr t) as [e'|] eqn:Hlast.
  - intros [= ->]. destruct (IH eq_refl) as (t1 & tg & cr & t2 & -> & Hc).
    exists (ev :: t1), tg, cr, t2. auto.
  - intros Hev. destruct ev; try discriminate Hev. injection Hev as ->.
    exists [], target, canRetry, t. split; [reflexivity|].
    clear IH. induction t as [|ev t IH]; [reflexivity|].
    simpl in Hlast. destruct (lastInnerErr t); [discriminate|].
    destruct ev; try discriminate Hlast; apply IH; reflexivity.
Qed.

Lemma attempt_no_error dg target inTransaction (inner : Action E) ls w :
  returns (attempt E flags dg target inTransaction inner ls) w (λ c _ t,
    err (stateOf c) = None → lastInnerErr t = Some None).
Proof.
  unfold attempt, bufferStep, healthyTablets.
  repeat step; rewrite ?lastInnerErr_app; cbn; try discriminate;
    try (destruct (err ls); discriminate);
    intros ->; reflexivity.
Qed.

Lemma retryLoop_no_error (n : nat) dg target inTransaction (inner : Action E) ls w :
  returns (retryLoop E flags n dg target inTransaction inner ls) w (λ ls' _ t,
    err ls' = None → n = 0%nat ∨ lastInnerErr t = Some None).
Proof.
  revert ls w. induction n as [|n IH]; intros ls w.
  - apply returns_ret. auto.
  - cbn [retryLoop]. apply returns_bind.
    eapply returns_mono; [apply attempt_no_error|].
    intros c w1 t1 Hattempt. cbv beta in Hattempt.
    destruct c as [ls1 | ls1]; cbn [stateOf] in Hattempt.
    + apply returns_ret. rewrite app_nil_r. auto.
    + destruct n as [|n].
      * apply returns_ret. rewrite app_nil_r. auto.
      * eapply returns_mono; [apply IH|].
        intros ls2 w2 t2 Hrest Herr. right. rewrite lastInnerErr_app.
        destruct (Hrest Herr) as [? | ->]; [discriminate | reflexivity].
Qed.

(** *** What ends the loop *)

Lemma firstEnd_app (t1 t2 : list Event) :
  firstEnd E (t1 ++ t2) =
  match firstEnd E t1 with Some e => Some e | None => firstEnd E t2 end.
Proof.
  induction t1 as [|ev t1 IH]; simpl; [reflexivity|].
  destruct (endsLoop E ev); [reflexivity | exact IH].
Qed.

Lemma endsWell_app_going (t1 t2 : list Event) :
  firstEnd E t1 = None → endsWell E t2 → endsWell E (t1 ++ t2).
Proof.
  induction t1 as [|ev t1 IH]; simpl; [auto|].
  destruct (endsLoop E ev); [discriminate | exact IH].
Qed.

Lemma endsWell_app_done (t1 t2 : list Event) :
  endsWell E t1 → Forall (λ ev, isRetryDone ev = true) t2 → endsWell E (t1 ++ t2).
Proof.
  intros H1 H2. induction t1 as [|ev t1 IH]; simpl in *.
  - induction H2 as [|ev t2 Hev _ IH2]; [exact I|].
    destruct ev; try discriminate Hev. exact IH2.
  - destruct (endsLoop E ev); [|apply IH, H1].
    apply Forall_app. split; [exact H1|].
    eapply Forall_impl; [exact H2|]. intros ev' Hev'. cbv beta in Hev'.
    destruct ev; cbn; rewrite ?Hev', ?orb_true_r; reflexivity.
Qed.

Lemma mayFollow_not_end (ev ev' : Event) : mayFollow ev ev' = true → endsLoop E ev' = None.
Proof. destruct ev, ev'; cbn; intros H; try discriminate H; reflexivity. Qed.

(** Read at an event that ends the loop. *)
Lemma endsWell_split (t t1 t2 : list Event) ev e :
  endsWell E t → t = t1 ++ ev :: t2 → endsLoop E ev = Some e →
  firstEnd E t = Some e ∧ Forall (λ ev', mayFollow ev ev' = true) t2.
Proof.
  intros Hwell -> Hev. induction t1 as [|ev1 t1 IH]; simpl in *.
  - rewrite Hev in *. auto.
  - destruct (endsLoop E ev1) as [e1|] eqn:H1; [|apply IH, Hwell].
    exfalso. apply Forall_app in Hwell as [_ Hwell].
    apply Forall_cons in Hwell as [Hfollow _].
    apply mayFollow_not_end in Hfollow. congruence.
Qed.

Lemma attempt_endsWell dg target inTransaction (inner : Action E) ls w :
  returns (attempt E flags dg target inTransaction inner ls) w (λ c _ t,
    endsWell E t ∧
    ∀ e, firstEnd E t = Some e → err (stateOf c) = e ∧ ∃ ls1, c = Break ls1).
Proof.
  unfold attempt, bufferStep, healthyTablets.
  repeat step; cbn;
    (split;
     [ repeat constructor
     | intros e0 He0;
       first [ discriminate He0
             | injection He0 as <-; split; [reflexivity | eauto] ] ]).
Qed.

Lemma retryLoop_endsWell (n : nat) dg target inTransaction (inner : Action E) ls w :
  returns (retryLoop E flags n dg target inTransaction inner ls) w (λ ls' _ t,
    endsWell E t ∧ ∀ e, firstEnd E t = Some e → err ls' = e).
Proof.
  revert ls w. induction n as [|n IH]; intros ls w.
  - apply returns_ret. split; [exact I | discriminate].
  - cbn [retryLoop]. apply returns_bind.
    eapply returns_mono; [apply attempt_endsWell|].
    intros c w1 t1 [Hwell Hend]. destruct c as [ls1 | ls1]; cbn [stateOf] in Hend.
    + apply returns_ret. rewrite app_nil_r. split; [exact Hwell|].
      intros e He. apply Hend, He.
    + assert (Hnone : firstEnd E t1 = None).
      { destruct (firstEnd E t1) as [e|] eqn:He; [|reflexivity].
        destruct (Hend e eq_refl) as [_ [ls0 Hc]]. discriminate. }
      eapply returns_mono; [apply IH|].
      intros ls2 w2 t2 [Hwell2 Hend2]. split.
      * apply endsWell_app_going; assumption.
      * intros e. rewrite firstEnd_app, Hnone. apply Hend2.
Qed.

Lemma Forall_replicate_RetryDone (n : nat) :
  Forall (λ ev, isRetryDone ev = true) (replicate n EvRetryDone).
Proof. induction n as [|n IH]; simpl; constructor; [reflexivity | exact IH]. Qed.

Lemma withRetry_endsWell dg target inTransaction (inner : Action E) w :
  returns (withRetry E flags dg target inTransaction inner) w (λ r _ t,
    endsWell E t ∧ ∀ e, firstEnd E t = Some e → r = NewShardError e target).
Proof.
  unfold withRetry. destruct (checkAllowedTabletTypes flags target).
  - apply returns_ret. split; [exact I | discriminate].
  - apply returns_bind. eapply returns_mono; [apply retryLoop_endsWell|].
    intros ls w1 t1 [Hwell Hend]. apply returns_bind.
    eapply returns_mono; [apply returns_runDeferred|].
    intros _ w2 t2 ->. apply returns_ret. rewrite app_nil_r. split.
    + apply endsWell_app_done; [exact Hwell | apply Forall_replicate_RetryDone].
    + intros e. rewrite firstEnd_app.
      destruct (firstEnd E t1) as [e1|] eqn:He1.
      * intros [= <-]. rewrite (Hend e1 eq_refl). reflexivity.
      * intros He. exfalso. clear -He.
        induction (length (deferred ls)) as [|n IH]; simpl in He; [discriminate | auto].
Qed.

(** *** The deferred retryDone *)

Lemma attempt_deferred dg target inTransaction (inner : Action E) ls w :
  returns (attempt E flags dg target inTransaction inner ls) w (λ c _ t,
    countIf isRetryDone t = 0%nat ∧
    length (deferred (stateOf c)) = (length (deferred ls) + countIf isBuffered t)%nat).
Proof.
  unfold attempt, bufferStep, healthyTablets.
  repeat step; rewrite ?countIf_app; cbn; (split; [reflexivity | try lia]);
    match goal with
    | |- context [match ?x with Some _ => _ | None => _ end] => destruct x; cbn; lia
    end.
Qed.

Lemma retryLoop_deferred (n : nat) dg target inTransaction (inner : Action E) ls w :
  returns (retryLoop E flags n dg target inTransaction inner ls) w (λ ls' _ t,
    countIf isRetryDone t = 0%nat ∧
    length (deferred ls') = (length (deferred ls) + countIf isBuffered t)%nat).
Proof.
  revert ls w. induction n as [|n IH]; intros ls w.
  - apply returns_ret. cbn. split; [reflexivity | lia].
  - cbn [retryLoop]. apply returns_bind.
    eapply returns_mono; [apply attempt_deferred|].
    intros c w1 t1 [Hdone Hlen]. destruct c as [ls1 | ls1]; cbn [stateOf] in Hlen.
    + apply returns_ret. rewrite app_nil_r. auto.
    + eapply returns_mono; [apply IH|].
      intros ls2 w2 t2 [Hdone2 Hlen2]. rewrite !countIf_app. split; lia.
Qed.

Lemma disciplined_buffered_once ok b (t : list Event) :
  disciplined ok b t →
  (countIf isBuffered t ≤ (if b then 0 else 1))%nat.
Proof.
  revert b. induction t as [|ev t IH]; intros b; simpl; [destruct b; lia|].
  intros [Hev Hrest]. specialize (IH _ Hrest).
  destruct (isBuffered ev) eqn:Hb.
  - assert (Hw : isBufferWait ev = true) by (destruct ev; try discriminate Hb; reflexivity).
    destruct (Hev Hw) as [_ ->]. simpl in IH. lia.
  - rewrite orb_false_r in IH. lia.
Qed.

(** *** Stats follow the action *)

Lemma statsFollow_app target (t1 t2 : list Event) :
  statsFollow E target t1 → statsFollow E target t2 → statsFollow E target (t1 ++ t2).
Proof.
  intros H1 H2. remember (length t1) as n eqn:Hn. revert t1 Hn H1.
  induction n as [n IH] using lt_wf_ind. intros t1 Hn H1.
  destruct t1 as [|ev t1]; [exact H2|].
  destruct ev;
    try (simpl in *; apply (IH (length t1)); [lia | reflexivity | exact H1]).
  - destruct t1 as [|ev' t1]; [contradiction|].
    destruct ev'; try contradiction.
    destruct H1 as (Hkey & Htype & Herr & H1). simpl. repeat split; try assumption.
    apply (IH (length t1)); [simpl in Hn; lia | reflexivity | exact H1].
  - contradiction.
Qed.

Lemma statsFollow_replicate_RetryDone target (n : nat) :
  statsFollow E target (replicate n EvRetryDone).
Proof. induction n as [|n IH]; [exact I | exact IH]. Qed.

Lemma attempt_statsFollow dg target inTransaction (inner : Action E) ls w :
  returns (attempt E flags dg target inTransaction inner ls) w (λ _ _ t,
    statsFollow E target t ∧ countIf (isUpdateFor E target) t = countInner t).
Proof.
  unfold attempt, bufferStep, healthyTablets, countInner.
  repeat step; rewrite ?countIf_app; cbn;
    rewrite ?bool_decide_eq_true_2 by reflexivity; cbn; auto.
Qed.

Lemma withRetry_statsFollow dg target inTransaction (inner : Action E) w :
  returns (withRetry E flags dg target inTransaction inner) w (λ _ _ t,
    statsFollow E target t ∧ countIf (isUpdateFor E target) t = countInner t).
Proof.
  apply withRetry_trace_property.
  - split; reflexivity.
  - intros t1 t2 [H1 H2] [H3 H4]. split; [apply statsFollow_app; assumption|].
    unfold countInner in *. rewrite !countIf_app. lia.
  - intros n. split; [apply statsFollow_replicate_RetryDone|].
    unfold countInner. rewrite !countIf_replicate_RetryDone by reflexivity. reflexivity.
  - intros ls w'. apply attempt_statsFollow.
Qed.

(** *** The deferred retryDone runs *)

Lemma runDeferred_runs (ds : list (World E → World E)) w :
  runDeferred E ds w =
    Ret (tt, foldl (λ w' retryDone, retryDone w') w ds,
         replicate (length ds) EvRetryDone).
Proof.
  revert w. induction ds as [|d ds IH]; intros w; [reflexivity|].
  cbn [runDeferred]. unfold bind, retryDoneCall. rewrite IH. reflexivity.
Qed.

Lemma attempt_handedOut dg target inTransaction (inner : Action E) ls w :
  Forall (handedOut E target) (deferred ls) →
  returns (attempt E flags dg target inTransaction inner ls) w (λ c _ _,
    Forall (handedOut E target) (deferred (stateOf c))).
Proof.
  intros Hls. unfold attempt, bufferStep, healthyTablets.
  repeat step; cbn; try exact Hls.
  all: constructor; [|exact Hls].
  all: eexists _, _, _; subst; eassumption.
Qed.

Lemma retryLoop_handedOut (n : nat) dg target inTransaction (inner : Action E) ls w :
  Forall (handedOut E target) (deferred ls) →
  returns (retryLoop E flags n dg target inTransaction inner ls) w (λ ls' _ _,
    Forall (handedOut E target) (deferred ls')).
Proof.
  revert ls w. induction n as [|n IH]; intros ls w Hls.
  - apply returns_ret. exact Hls.
  - cbn [retryLoop]. apply returns_bind.
    eapply returns_mono; [apply attempt_handedOut; exact Hls|].
    intros c w1 t1 Hc. cbv beta in Hc. destruct c as [ls1 | ls1]; cbn [stateOf] in Hc.
    + apply returns_ret. exact Hc.
    + eapply returns_mono; [apply IH; exact Hc|]. intros ls2 w2 t2 H2. exact H2.
Qed.

End RetryInvariants.

(** X1.  In every call to withRetry the action is invoked exactly once for
    each connection the health check hands out, and the stats are updated
    exactly once for each invocation: the call right after an invocation
    is the update of the aggregator of the request's target (the key of
    its keyspace, shard and tablet type), under the target's tablet type
    and with the error flag of that invocation, and the stats are updated
    nowhere else. *)
Theorem withRetry_one_invocation_per_connection
    (E : Env) (flags : Flags) (dg : DiscoveryGateway) (target : Target)
    (inTransaction : bool) (inner : Action E) (w : World E) :
  ∃ r w' t,
    withRetry E flags dg target inTransaction inner w = Ret (r, w', t) ∧
    countIf isConnectionFound t = countInner t ∧
    countIf isUpdateQueryInfo t = countInner t ∧
    countIf (isUpdateFor E target) t = countInner t ∧
    statsFollow E target t.
Proof.
  destruct (returns_conj _ _ _ _
              (withRetry_counts flags dg target inTransaction inner w)
              (withRetry_statsFollow flags dg target inTransaction inner w))
    as (r & w' & t & Hrun & [Hconn Hupd] & [Hfollow Hkeyed]).
  exists r, w', t. auto.
Qed.

(** X2.  Within one call withRetry never asks for the connection of the
    same tablet key twice: a tablet that was tried is not tried again. *)
Theorem withRetry_never_tries_a_tablet_twice
    (E : Env) (flags : Flags) (dg : DiscoveryGateway) (target : Target)
    (inTransaction : bool) (inner : Action E) (w : World E) :
  ∃ r w' t,
    withRetry E flags dg target inTransaction inner w = Ret (r, w', t) ∧
    NoDup (connectionKeys t).
Proof.
  change (returns (withRetry E flags dg target inTransaction inner) w
            (λ _ _ t, NoDup (connectionKeys t))).
  unfold withRetry. destruct (checkAllowedTabletTypes flags target).
  - apply returns_ret. constructor.
  - apply returns_bind. eapply returns_mono; [apply retryLoop_no_tablet_twice|].
    intros ls w1 t1 [Hnodup _]. apply returns_bind.
    eapply returns_mono; [apply returns_runDeferred|].
    intros _ w2 t2 ->. apply returns_ret.
    rewrite !connectionKeys_app, connectionKeys_replicate_RetryDone, !app_nil_r.
    exact Hnodup.
Qed.

(** X3.  Every tablet withRetry asks a connection for was reported healthy
    by the stats cache during the same call. *)
Theorem withRetry_contacts_only_reported_tablets
    (E : Env) (flags : Flags) (dg : DiscoveryGateway) (target : Target)
    (inTransaction : bool) (inner : Action E) (w : World E) :
  ∃ r w' t,
    withRetry E flags dg target inTransaction inner w = Ret (r, w', t) ∧
    connectionKeys t ⊆ snapshotKeys t.
Proof.
  apply (withRetry_trace_property flags (λ t, connectionKeys t ⊆ snapshotKeys t)).
  - intros k Hk. inversion Hk.
  - intros t1 t2 H1 H2 k. rewrite connectionKeys_app, snapshotKeys_app, !elem_of_app.
    intros [Hk | Hk]; [left; apply H1, Hk | right; apply H2, Hk].
  - intros n k. rewrite connectionKeys_replicate_RetryDone. intros Hk. inversion Hk.
  - intros ls w'. apply attempt_contacts_reported.
Qed.

(** X4.  withRetry returns nil only when the last invocation of the action
    reported no error, or when the retry count allows no attempt at all. *)
Theorem withRetry_nil_only_after_action_succeeded
    (E : Env) (flags : Flags) (dg : DiscoveryGateway) (target : Target)
    (inTransaction : bool) (inner : Action E) (w : World E) :
  ∃ r w' t,
    withRetry E flags dg target inTransaction inner w = Ret (r, w', t) ∧
    (r = None →
     maxAttempts dg = 0%nat ∨
     ∃ t1 target' canRetry t2,
       t = t1 ++ EvInner target' canRetry None :: t2 ∧ countInner t2 = 0%nat).
Proof.
  change (returns (withRetry E flags dg target inTransaction inner) w (λ r _ t,
    r = None →
    maxAttempts dg = 0%nat ∨
    ∃ t1 target' canRetry t2,
      t = t1 ++ EvInner target' canRetry None :: t2 ∧ countInner t2 = 0%nat)).
  unfold withRetry. destruct (checkAllowedTabletTypes flags target).
  - apply returns_ret. discriminate.
  - apply returns_bind. eapply returns_mono; [apply retryLoop_no_error|].
    intros ls w1 t1 Hloop. cbv beta in Hloop. apply returns_bind.
    eapply returns_mono; [apply returns_runDeferred|].
    intros _ w2 t2 ->. apply returns_ret. intros Hr.
    assert (Herr : err ls = None) by (destruct (err ls); [discriminate | reflexivity]).
    destruct (Hloop Herr) as [H0 | Hlast]; [left; exact H0 | right].
    apply lastInnerErr_split.
    rewrite !lastInnerErr_app. cbn. rewrite lastInnerErr_replicate_RetryDone. exact Hlast.
Qed.

Lemma withRetry_nil_only_after_action_succeeded_witness :
  ∃ w' t t1 target' canRetry t2,
    withRetry Demo.env Demo.flags (Demo.gateway 2) (Demo.target "ks" TabletType_REPLICA)
      false Fleet.succeed 0%nat = Ret (None, w', t) ∧
    t = t1 ++ EvInner target' canRetry None :: t2.
Proof.
  destruct (withRetry_nil_only_after_action_succeeded
              Demo.env Demo.flags (Demo.gateway 2) (Demo.target "ks" TabletType_REPLICA)
              false Fleet.succeed 0%nat) as (r & w' & t & Hrun & Hnil).
  pose proof Hrun as Hc. vm_compute in Hc. injection Hc as Hr Hw Ht.
  assert (Hnone : r = None) by congruence.
  destruct (Hnil Hnone) as [H0 | (t1 & tg & cr & t2 & Hsplit & _)].
  - discriminate H0.
  - exists w', t, t1, tg, cr, t2. split; [|exact Hsplit].
    rewrite Hrun, Hnone. reflexivity.
Defined.

(** X5.  When the action reports an outcome that is not retryable,
    withRetry stops there: it returns the error of that invocation, wrapped
    with the target (nil when there is none), and after the invocation
    only updates the stats and runs the deferred retryDone. *)
Theorem withRetry_stops_at_non_retryable
    (E : Env) (flags : Flags) (dg : DiscoveryGateway) (target : Target)
    (inTransaction : bool) (inner : Action E) (w : World E) :
  ∃ r w' t,
    withRetry E flags dg target inTransaction inner w = Ret (r, w', t) ∧
    ∀ t1 target' e t2,
      t = t1 ++ EvInner target' false e :: t2 →
      r = NewShardError e target ∧
      Forall (λ ev, isUpdateQueryInfo ev || isRetryDone ev = true) t2.
Proof.
  destruct (withRetry_endsWell flags dg target inTransaction inner w)
    as (r & w' & t & Hrun & Hwell & Hend).
  exists r, w', t. split; [exact Hrun|].
  intros t1 tg e t2 Ht.
  destruct (endsWell_split t t1 t2 (EvInner tg false e) e Hwell Ht eq_refl)
    as [Hfirst Hrest].
  split; [apply Hend, Hfirst | exact Hrest].
Qed.

Lemma withRetry_stops_at_non_retryable_witness :
  ∃ w' t,
    withRetry Demo.env Demo.flags (Demo.gateway 2) (Demo.target "ks" TabletType_REPLICA)
      false Fleet.failForGood 0%nat =
      Ret (Some (ShardError Demo.failure (Demo.target "ks" TabletType_REPLICA)), w', t) ∧
    countInner t = 1%nat.
Proof.
  destruct (withRetry_stops_at_non_retryable
              Demo.env Demo.flags (Demo.gateway 2) (Demo.target "ks" TabletType_REPLICA)
              false Fleet.failForGood 0%nat) as (r & w' & t & Hrun & Hstop).
  pose proof Hrun as Hc. vm_compute in Hc. injection Hc as Hr Hw Ht.
  destruct (Hstop [EvGetHealthyTabletStats "ks" "0" TabletType_REPLICA Demo.replicas;
                   EvGetConnection "r2" true]
              (Demo.target "ks" TabletType_REPLICA) (Some Demo.failure)
              [EvUpdateQueryInfo "ks/0/REPLICA" TabletType_REPLICA true]) as [Hres _].
  - rewrite <- Ht. reflexivity.
  - exists w', t. split; [rewrite Hrun, Hres; reflexivity | rewrite <- Ht; reflexivity].
Defined.

(** X6.  When the failover buffer refuses the request (it returns an
    error), withRetry stops there: it returns an error that carries the
    code of the buffer's error, wrapped with the target, and asks neither
    the stats cache nor the health check nor the action for anything
    more. *)
Theorem withRetry_stops_when_buffer_refuses
    (E : Env) (flags : Flags) (dg : DiscoveryGateway) (target : Target)
    (inTransaction : bool) (inner : Action E) (w : World E) :
  ∃ r w' t,
    withRetry E flags dg target inTransaction inner w = Ret (r, w', t) ∧
    ∀ t1 keyspace shard e buffered bufferErr t2,
      t = t1 ++ EvWaitForFailoverEnd keyspace shard e buffered (Some bufferErr) :: t2 →
      r = Some (ShardError
                  (VtError (vterrors_Code E bufferErr) (MsgBufferFailed bufferErr e))
                  target) ∧
      Forall (λ ev, isRetryDone ev = true) t2.
Proof.
  destruct (withRetry_endsWell flags dg target inTransaction inner w)
    as (r & w' & t & Hrun & Hwell & Hend).
  exists r, w', t. split; [exact Hrun|].
  intros t1 ks sh e b be t2 Ht.
  destruct (endsWell_split t t1 t2 (EvWaitForFailoverEnd ks sh e b (Some be)) _
              Hwell Ht eq_refl) as [Hfirst Hrest].
  split; [exact (Hend _ Hfirst) | exact Hrest].
Qed.

Lemma withRetry_stops_when_buffer_refuses_witness :
  ∃ w',
    withRetry Fleet.envBufferFull Demo.flags (Demo.gateway 2)
      (Demo.target "ks" TabletType_MASTER) false Fleet.succeed 0%nat =
      Ret (Some (ShardError
                   (VtError Code_RESOURCE_EXHAUSTED (MsgBufferFailed Fleet.bufferFull None))
                   (Demo.target "ks" TabletType_MASTER)),
           w', [EvWaitForFailoverEnd "ks" "0" None false (Some Fleet.bufferFull)]).
Proof.
  destruct (withRetry_stops_when_buffer_refuses
              Fleet.envBufferFull Demo.flags (Demo.gateway 2)
              (Demo.target "ks" TabletType_MASTER) false Fleet.succeed 0%nat)
    as (r & w' & t & Hrun & Hstop).
  pose proof Hrun as Hc. vm_compute in Hc. injection Hc as Hr Hw Ht.
  destruct (Hstop [] "ks" "0" None false Fleet.bufferFull []) as [Hres _].
  - rewrite <- Ht. reflexivity.
  - exists w'. rewrite Hrun, Hres, <- Ht. reflexivity.
Defined.

(** X7.  The retryDone the buffer hands out with a successful buffering is
    called exactly once, when withRetry returns, after every other call;
    there is at most one, and no retryDone is called otherwise.  The
    world withRetry leaves is the world in which the loop was left with
    that retryDone run on it (the very closure the buffer handed out for
    the shard of the target), and the world of the loop itself when
    nothing was buffered. *)
Theorem withRetry_calls_retryDone_once
    (E : Env) (flags : Flags) (dg : DiscoveryGateway) (target : Target)
    (inTransaction : bool) (inner : Action E) (w : World E) :
  ∃ r w' t,
    withRetry E flags dg target inTransaction inner w = Ret (r, w', t) ∧
    ∃ calls,
      t = calls ++ replicate (countIf isBuffered calls) EvRetryDone ∧
      countIf isRetryDone calls = 0%nat ∧
      (countIf isBuffered calls ≤ 1)%nat ∧
      (checkAllowedTabletTypes flags target = None →
       ∃ ls w1,
         retryLoop E flags (maxAttempts dg) dg target inTransaction inner
           (mkLoop None ∅ false []) w = Ret (ls, w1, calls) ∧
         ((countIf isBuffered calls = 0%nat ∧ w' = w1) ∨
          (countIf isBuffered calls = 1%nat ∧
           ∃ retryDone, handedOut E target retryDone ∧ w' = retryDone w1))).
Proof.
  destruct (checkAllowedTabletTypes flags target) as [e|] eqn:Hallowed.
  - exists (Some e), w, []. unfold withRetry. rewrite Hallowed.
    split; [reflexivity|]. exists []. cbn. repeat split; [lia | discriminate].
  - destruct (returns_conj _ _ _ _
                (returns_conj _ _ _ _
                   (retryLoop_deferred flags (maxAttempts dg) dg target inTransaction inner
                      (mkLoop None ∅ false []) w)
                   (retryLoop_disciplined flags (maxAttempts dg) dg target inTransaction inner
                      (mkLoop None ∅ false []) w))
                (retryLoop_handedOut flags (maxAttempts dg) dg target inTransaction inner
                   (mkLoop None ∅ false []) w (Forall_nil_2 _)))
      as (ls & w1 & calls & Hloop & [[Hnone Hlen] [Hdisc _]] & Hout).
    cbn in Hlen, Hdisc.
    pose proof (disciplined_buffered_once _ false _ Hdisc) as Hone. cbn in Hone.
    eexists _, _, _. split.
    + unfold withRetry. rewrite Hallowed. unfold bind. rewrite Hloop, runDeferred_runs.
      reflexivity.
    + exists calls. rewrite app_nil_r, Hlen. split; [reflexivity|].
      split; [exact Hnone|]. split; [exact Hone|]. intros _.
      exists ls, w1. split; [exact Hloop|].
      destruct (deferred ls) as [|retryDone [|retryDone' ds]]; cbn in Hlen.
      * left. split; [lia | reflexivity].
      * right. split; [lia|]. exists retryDone. split; [|reflexivity].
        apply Forall_cons in Hout as [Hrd _]. exact Hrd.
      * lia.
Qed.

Lemma withRetry_calls_retryDone_once_witness :
  ∃ calls w1,
    retryLoop Fleet.envBuffering Demo.flags (maxAttempts (Demo.gateway 2)) (Demo.gateway 2)
      (Demo.target "ks" TabletType_MASTER) false Fleet.succeed
      (mkLoop None ∅ false []) 0%nat = Ret (mkLoop None ∅ true [λ w', (w' + 100)%nat], w1, calls) ∧
    w1 = 1%nat ∧
    withRetry Fleet.envBuffering Demo.flags (Demo.gateway 2)
      (Demo.target "ks" TabletType_MASTER) false Fleet.succeed 0%nat =
      Ret (None, 101%nat, calls ++ [EvRetryDone]).
Proof.
  destruct (withRetry_calls_retryDone_once
              Fleet.envBuffering Demo.flags (Demo.gateway 2)
              (Demo.target "ks" TabletType_MASTER) false Fleet.succeed 0%nat)
    as (r & w' & t & Hrun & calls & Ht & _ & _ & Hworld).
  destruct Hworld as (ls & w1 & Hloop & _); [reflexivity|].
  pose proof Hloop as Hc. vm_compute in Hc. injection Hc as Hls Hw1 Hcalls.
  exists calls, w1. split; [|split].
  - rewrite Hloop, <- Hls. reflexivity.
  - symmetry. exact Hw1.
  - rewrite <- Hcalls. vm_compute. reflexivity.
Defined.

(** X8.  When the retry count plus one is not positive (retry count -1 or
    less, or the largest int, for which the sum wraps), the loop of
    withRetry does not run: an allowed request gets nil back although
    nothing was called. *)
Theorem withRetry_without_attempts
    (E : Env) (flags : Flags) (dg : DiscoveryGateway) (target : Target)
    (inTransaction : bool) (inner : Action E) (w : World E) :
  checkAllowedTabletTypes flags target = None →
  int_add (retryCount dg) 1 ≤ 0 →
  withRetry E flags dg target inTransaction inner w = Ret (None, w, []).
Proof.
  intros Hallowed Hrc. unfold withRetry. rewrite Hallowed.
  unfold maxAttempts. replace (Z.to_nat (int_add (retryCount dg) 1)) with 0%nat by lia.
  reflexivity.
Qed.

Lemma withRetry_without_attempts_witness :
  withRetry Demo.env Demo.flags (Demo.gateway (-1)) (Demo.target "ks" TabletType_REPLICA)
    false Demo.alwaysRetry 0%nat = Ret (None, 0%nat, []) ∧
  withRetry Demo.env Demo.flags (Demo.gateway int_max) (Demo.target "ks" TabletType_REPLICA)
    false Demo.alwaysRetry 0%nat = Ret (None, 0%nat, []).
Proof.
  split.
  - apply (withRetry_without_attempts
             Demo.env Demo.flags (Demo.gateway (-1)) (Demo.target "ks" TabletType_REPLICA)
             false Demo.alwaysRetry 0%nat); [reflexivity|].
    vm_compute. discriminate.
  - apply (withRetry_without_attempts
             Demo.env Demo.flags (Demo.gateway int_max) (Demo.target "ks" TabletType_REPLICA)
             false Demo.alwaysRetry 0%nat); [reflexivity|].
    vm_compute. discriminate.
Defined.

(** X9.  withRetry returns nil, or the error of the allowed-tablet-types
    check as it is (and then nothing was called), or an error wrapped with
    the target of the call: every error of the loop carries the target. *)
Theorem withRetry_errors_carry_the_target
    (E : Env) (flags : Flags) (dg : DiscoveryGateway) (target : Target)
    (inTransaction : bool) (inner : Action E) (w : World E) :
  ∃ r w' t,
    withRetry E flags dg target inTransaction inner w = Ret (r, w', t) ∧
    (r = None ∨
     (∃ e, r = Some (ShardError e target)) ∨
     (r = Some (VtError Code_FAILED_PRECONDITION
                  (MsgTabletTypeNotAllowed (TargetTabletType target)
                     (AllowedTabletTypes flags))) ∧
      w' = w ∧ t = [])).
Proof.
  destruct (checkAllowedTabletTypes flags target) as [e|] eqn:Hallowed.
  - exists (Some e), w, []. unfold withRetry. rewrite Hallowed.
    split; [reflexivity|]. right. right.
    unfold checkAllowedTabletTypes in Hallowed.
    destruct (bool_decide _); [|discriminate].
    destruct (matchAllowed _ _); [discriminate|]. injection Hallowed as <-. auto.
  - destruct (retryLoop_returns flags (maxAttempts dg) dg target inTransaction inner
                (mkLoop None ∅ false []) w) as (ls & w1 & t & Hloop).
    destruct (withRetry_after_loop flags dg target inTransaction inner _ _ _ _
                Hallowed Hloop) as (w2 & Hrun).
    eexists _, _, _. split; [exact Hrun|].
    destruct (err ls); cbn; [right; left; eauto | left; reflexivity].
Qed.

(** ** nextTablet and the pick after the shuffle *)

(** X10.  From a non-negative offset, nextTablet returns the index of the
    first tablet at or after the offset that is (or, for sameCell = false,
    is not) in the cell, and -1 when there is none; it does not panic,
    also when the offset is past the end. *)
Theorem nextTablet_first_match
    (cell : string) (tablets : list LegacyTabletStats) (offset : Z) (sameCell : bool) :
  0 ≤ offset →
  ∃ r,
    nextTablet cell tablets offset (Z.of_nat (length tablets)) sameCell = Ret r ∧
    ((r = -1 ∧
      ∀ k t, offset ≤ k → tablets !! Z.to_nat k = Some t → inCell cell t = negb sameCell) ∨
     (offset ≤ r < Z.of_nat (length tablets) ∧
      (∃ t, tablets !! Z.to_nat r = Some t ∧ inCell cell t = sameCell) ∧
      ∀ k t, offset ≤ k < r → tablets !! Z.to_nat k = Some t → inCell cell t = negb sameCell)).
Proof.
  intros H0. destruct (decide (offset ≤ Z.of_nat (length tablets))) as [Hle | Hgt].
  - destruct (nextTablet_spec cell tablets offset sameCell) as (r & Hr & Hspec); [lia|].
    exists r. split; [exact Hr|].
    destruct Hspec as [[-> Hall] | (Hrange & Hat & Hall)]; [left | right].
    + split; [reflexivity|]. intros k t Hk Ht.
      assert (Hlt := lookup_lt_Some _ _ _ Ht).
      destruct (Hall k) as (t' & Ht' & Hc); [lia|]. congruence.
    + split; [exact Hrange|]. split; [exact Hat|]. intros k t Hk Ht.
      destruct (Hall k Hk) as (t' & Ht' & Hc). congruence.
  - exists (-1). unfold nextTablet.
    replace (Z.to_nat (Z.of_nat (length tablets) - offset)) with 0%nat by lia.
    split; [reflexivity|]. left. split; [reflexivity|]. intros k t Hk Ht.
    assert (Hlt := lookup_lt_Some _ _ _ Ht). lia.
Qed.

Lemma nextTablet_first_match_witness :
  ∃ r, nextTablet "a" Demo.replicas 0 (Z.of_nat (length Demo.replicas)) true = Ret r.
Proof.
  destruct (nextTablet_first_match "a" Demo.replicas 0 true) as (r & Hr & _); [lia|].
  exists r. exact Hr.
Defined.

(** The first valid tablet is valid, and every tablet before it is not. *)
Lemma firstValid_least (invalid : gmap string bool) (l : list LegacyTabletStats) ts :
  firstValid invalid l = Some ts →
  ∃ i, l !! i = Some ts ∧
       ∀ j t, (j < i)%nat → l !! j = Some t → is_Some (invalid !! Key t).
Proof.
  induction l as [|t0 l IH]; simpl; [discriminate|].
  destruct (invalid !! Key t0) eqn:H0.
  - intros H. destruct (IH H) as (i & Hi & Hbefore).
    exists (S i). split; [exact Hi|]. intros [|j] t Hj Ht; simpl in Ht.
    + injection Ht as <-. eauto.
    + apply (Hbefore j); [lia | exact Ht].
  - intros [= ->]. exists 0%nat. split; [reflexivity|]. intros j t Hj. lia.
Qed.

Lemma firstValid_is_Some (invalid : gmap string bool) (l : list LegacyTabletStats) t :
  t ∈ l → invalid !! Key t = None → is_Some (firstValid invalid l).
Proof.
  induction l as [|t0 l IH]; intros Hin Hvalid; [inversion Hin|]. simpl.
  destruct (invalid !! Key t0) eqn:H0; [|eauto].
  apply IH; [|exact Hvalid].
  apply elem_of_cons in Hin as [-> | Hin]; [congruence | exact Hin].
Qed.

(** X11.  Cell affinity of the pick: when some healthy tablet of the local
    cell has not been tried yet, the tablet chosen after the shuffle (the
    first one not marked invalid) is a tablet of the local cell, whatever
    the random draws. *)
Theorem shuffled_pick_prefers_local_cell
    (E : Env) (cell : string) (invalid : gmap string bool)
    (tablets : list LegacyTabletStats) (w : World E) :
  Exists (λ t, inCell cell t = true ∧ invalid !! Key t = None) tablets →
  ∃ tablets' w' ts,
    shuffleTablets E cell tablets w = Ret (tablets', w', []) ∧
    firstValid invalid tablets' = Some ts ∧
    ts ∈ tablets ∧ inCell cell ts = true ∧ invalid !! Key ts = None.
Proof.
  intros Hex. apply Exists_exists in Hex as (a & Ha & Hlocal & Hvalid).
  destruct (shuffleTablets_spec cell tablets w) as (l' & w' & t & Hrun & -> & Hperm & Hpart).
  assert (Ha' : a ∈ l') by (rewrite Hperm; exact Ha).
  destruct (firstValid_is_Some invalid l' a Ha' Hvalid) as [ts Hts].
  exists l', w', ts. split; [exact Hrun|]. split; [exact Hts|].
  destruct (firstValid_Some _ _ _ Hts) as [Hin Hnone].
  split; [rewrite <- Hperm; exact Hin|]. split; [|exact Hnone].
  destruct (inCell cell ts) eqn:Hts_cell; [reflexivity | exfalso].
  destruct (firstValid_least _ _ _ Hts) as (i & Hi & Hbefore).
  apply list_elem_of_lookup in Ha' as [j Hj].
  pose proof (Hpart j i a ts Hj Hi Hlocal Hts_cell) as Hlt.
  destruct (Hbefore j a Hlt Hj) as [b Hb]. congruence.
Qed.

Lemma shuffled_pick_prefers_local_cell_witness :
  ∃ tablets' w' ts,
    shuffleTablets Demo.env "a" Demo.replicas 0%nat = Ret (tablets', w', []) ∧
    firstValid ∅ tablets' = Some ts ∧ inCell "a" ts = true.
Proof.
  destruct (shuffled_pick_prefers_local_cell Demo.env "a" ∅ Demo.replicas 0%nat)
    as (l' & w' & ts & Hrun & Hpick & _ & Hlocal & _).
  - apply (bool_decide_unpack _). vm_compute. exact I.
  - exists l', w', ts. auto.
Defined.

(** ** getStatsAggregator *)

Section AggregatorProofs.

Variable E : Env.
Variable Aggregator : Type.
Variable NewTabletStatusAggregator : string → string → TabletType → string → Aggregator.

Abbreviation get := (getStatsAggregator E NewTabletStatusAggregator).

Lemma getStatsAggregator_stored (m : gmap string Aggregator) (target : Target) :
  (get m target).2 !! aggregatorKey E target = Some (get m target).1.
Proof.
  unfold getStatsAggregator.
  destruct (m !! aggregatorKey E target) eqn:Hm; cbn; [exact Hm|].
  apply lookup_insert_eq.
Qed.

Lemma getStatsAggregator_keeps (m : gmap string Aggregator) (target : Target) k a :
  m !! k = Some a → (get m target).2 !! k = Some a.
Proof.
  intros Hk. unfold getStatsAggregator.
  destruct (m !! aggregatorKey E target) eqn:Hm; cbn; [exact Hk|].
  rewrite lookup_insert_ne; [exact Hk|]. intros <-. congruence.
Qed.

Lemma getStatsAggregator_existing (m : gmap string Aggregator) (target : Target) a :
  m !! aggregatorKey E target = Some a → get m target = (a, m).
Proof. intros Hm. unfold getStatsAggregator. rewrite Hm. reflexivity. Qed.

End AggregatorProofs.

(** X13.  Once getStatsAggregator has returned the aggregator of a target,
    every later call for that target returns the same aggregator, whatever
    other targets are looked up in between: an aggregator is never
    replaced. *)
Theorem getStatsAggregator_is_stable
    (E : Env) (Aggregator : Type)
    (NewTabletStatusAggregator : string → string → TabletType → string → Aggregator)
    (statusAggregators : gmap string Aggregator) (target : Target)
    (others : list Target) :
  let first := getStatsAggregator E NewTabletStatusAggregator statusAggregators target in
  let later :=
    foldl (λ m other, (getStatsAggregator E NewTabletStatusAggregator m other).2)
      first.2 others in
  getStatsAggregator E NewTabletStatusAggregator later target = (first.1, later).
Proof.
  cbv zeta.
  apply getStatsAggregator_existing.
  pose proof (getStatsAggregator_stored E Aggregator NewTabletStatusAggregator
                statusAggregators target) as Hstored.
  revert Hstored.
  generalize ((getStatsAggregator E NewTabletStatusAggregator statusAggregators target).2).
  generalize ((getStatsAggregator E NewTabletStatusAggregator statusAggregators target).1).
  intros a m. revert m. induction others as [|other others IH]; intros m Hm; simpl.
  - exact Hm.
  - apply IH. apply getStatsAggregator_keeps. exact Hm.
Qed.

(** ** The topology watchers *)

Section WatcherProofs.

Variable W : Type.
Variable RefreshLag : Watcher → W → Z * W.
Variable TopoChecksum : Watcher → W → Z * W.

Lemma maxRefreshLagLoop_spec (watchers : list Watcher) (lag : Z) (w : W) :
  let r := (maxRefreshLagLoop RefreshLag watchers lag w).1 in
  lag ≤ r ∧
  Forall (λ cellLag, cellLag ≤ r) (refreshLags RefreshLag watchers w) ∧
  (r = lag ∨ r ∈ refreshLags RefreshLag watchers w).
Proof.
  cbv zeta. revert lag w. induction watchers as [|tw watchers IH]; intros lag w; simpl.
  - split; [lia|]. split; [constructor | left; reflexivity].
  - destruct (RefreshLag tw w) as [cellLag w1].
    specialize (IH (if bool_decide (cellLag > lag) then cellLag else lag) w1).
    destruct IH as (Hge & Hall & Hin).
    case_bool_decide as Hgt.
    + split; [lia|]. split; [constructor; [lia | exact Hall]|].
      right. destruct Hin as [-> | Hin]; [left | right; exact Hin].
    + split; [lia|]. split; [constructor; [lia | exact Hall]|].
      destruct Hin as [-> | Hin]; [left; reflexivity | right; right; exact Hin].
Qed.

Lemma uint32_range (z : Z) : 0 ≤ uint32 z < 2 ^ 32.
Proof. unfold uint32. apply Z.mod_pos_bound. lia. Qed.

Lemma lxor_range32 (a b : Z) :
  0 ≤ a < 2 ^ 32 → 0 ≤ b < 2 ^ 32 → 0 ≤ Z.lxor a b < 2 ^ 32.
Proof.
  intros Ha Hb.
  assert (Hnn : 0 ≤ Z.lxor a b) by (apply Z.lxor_nonneg; lia).
  split; [exact Hnn|].
  destruct (decide (Z.lxor a b = 0)) as [-> | Hne]; [lia|].
  apply Z.log2_lt_pow2; [lia|].
  pose proof (Z.log2_lxor a b ltac:(lia) ltac:(lia)) as Hlog.
  assert (Hla : Z.log2 a < 32).
  { destruct (decide (a = 0)) as [-> | ?]; [cbn; lia | apply Z.log2_lt_pow2; lia]. }
  assert (Hlb : Z.log2 b < 32).
  { destruct (decide (b = 0)) as [-> | ?]; [cbn; lia | apply Z.log2_lt_pow2; lia]. }
  lia.
Qed.

Lemma checksumLoop_range (watchers : list Watcher) (checksum : Z) (w : W) :
  0 ≤ checksum < 2 ^ 32 →
  0 ≤ (checksumLoop TopoChecksum watchers checksum w).1 < 2 ^ 32.
Proof.
  revert checksum w. induction watchers as [|tw watchers IH]; intros checksum w Hc; simpl.
  - exact Hc.
  - destruct (TopoChecksum tw w) as [c w1]. apply IH.
    apply lxor_range32; [exact Hc | apply uint32_range].
Qed.

(** When a checksum depends on the watcher alone, the loop folds them. *)
Lemma checksumLoop_fold (cs : Watcher → Z) (watchers : list Watcher) (checksum : Z) (w : W) :
  (∀ tw w', (TopoChecksum tw w').1 = cs tw) →
  (checksumLoop TopoChecksum watchers checksum w).1 =
  foldl (λ c tw, Z.lxor c (uint32 (cs tw))) checksum watchers.
Proof.
  intros Hcs. revert checksum w.
  induction watchers as [|tw watchers IH]; intros checksum w; simpl; [reflexivity|].
  specialize (Hcs tw w). destruct (TopoChecksum tw w) as [c w1]. simpl in Hcs. subst c.
  apply IH.
Qed.

Lemma fold_lxor_Permutation (cs : Watcher → Z) (l l' : list Watcher) (checksum : Z) :
  l ≡ₚ l' →
  foldl (λ c tw, Z.lxor c (uint32 (cs tw))) checksum l =
  foldl (λ c tw, Z.lxor c (uint32 (cs tw))) checksum l'.
Proof.
  intros Hp. revert checksum.
  induction Hp as [|x l l' _ IH|x y l|l l' l'' _ IH1 _ IH2]; intros checksum; simpl.
  - reflexivity.
  - apply IH.
  - f_equal. rewrite !Z.lxor_assoc. f_equal. apply Z.lxor_comm.
  - rewrite IH1. apply IH2.
Qed.

End WatcherProofs.

(** X14.  topologyWatcherMaxRefreshLag returns the largest of the lags it
    reads from the watchers, and 0 when there is no watcher or no lag is
    positive: the result is never negative and never below a lag that was
    read. *)
Theorem topologyWatcherMaxRefreshLag_is_max
    (W : Type) (RefreshLag : Watcher → W → Z * W) (dg : DiscoveryGateway) (w : W) :
  ∃ lag w',
    topologyWatcherMaxRefreshLag RefreshLag dg w = (lag, w') ∧
    0 ≤ lag ∧
    Forall (λ cellLag, cellLag ≤ lag) (refreshLags RefreshLag (tabletsWatchers dg) w) ∧
    (lag = 0 ∨ lag ∈ refreshLags RefreshLag (tabletsWatchers dg) w).
Proof.
  pose proof (maxRefreshLagLoop_spec W RefreshLag (tabletsWatchers dg) 0 w) as H.
  cbv zeta in H. unfold topologyWatcherMaxRefreshLag.
  destruct (maxRefreshLagLoop RefreshLag (tabletsWatchers dg) 0 w) as [lag w'].
  exists lag, w'. split; [reflexivity | exact H].
Qed.

(** X15.  The checksum topologyWatcherChecksum returns, an int64, is never
    negative and always fits in 32 bits; it is 0 when there is no
    watcher. *)
Theorem topologyWatcherChecksum_fits_32_bits
    (W : Type) (TopoChecksum : Watcher → W → Z * W) (dg : DiscoveryGateway) (w : W) :
  0 ≤ (topologyWatcherChecksum TopoChecksum dg w).1 < 2 ^ 32 ∧
  (tabletsWatchers dg = [] → topologyWatcherChecksum TopoChecksum dg w = (0, w)).
Proof.
  split.
  - apply checksumLoop_range. lia.
  - intros Hnil. unfold topologyWatcherChecksum. rewrite Hnil. reflexivity.
Qed.

Lemma topologyWatcherChecksum_fits_32_bits_witness :
  topologyWatcherChecksum Fleet.TopoChecksum (mkGateway "a" 2 []) 0%nat = (0, 0%nat).
Proof.
  apply (topologyWatcherChecksum_fits_32_bits nat Fleet.TopoChecksum (mkGateway "a" 2 []) 0%nat).
  reflexivity.
Defined.

(** X16.  When the checksum of a watcher does not depend on when it is
    read, the checksum of the gateway does not depend on the order of its
    watchers, and two watchers with the same checksum cancel each other:
    the gateway's checksum is the one it has without them. *)
Theorem topologyWatcherChecksum_order_and_pairs
    (W : Type) (TopoChecksum : Watcher → W → Z * W) (cs : Watcher → Z)
    (cell : string) (retryCount : Z) (w : W) :
  (∀ tw w', (TopoChecksum tw w').1 = cs tw) →
  (∀ watchers watchers',
     watchers ≡ₚ watchers' →
     (topologyWatcherChecksum TopoChecksum (mkGateway cell retryCount watchers) w).1 =
     (topologyWatcherChecksum TopoChecksum (mkGateway cell retryCount watchers') w).1) ∧
  (∀ tw1 tw2 watchers,
     uint32 (cs tw1) = uint32 (cs tw2) →
     (topologyWatcherChecksum TopoChecksum
        (mkGateway cell retryCount (tw1 :: tw2 :: watchers)) w).1 =
     (topologyWatcherChecksum TopoChecksum (mkGateway cell retryCount watchers) w).1).
Proof.
  intros Hcs. unfold topologyWatcherChecksum. cbn [tabletsWatchers]. split.
  - intros watchers watchers' Hp.
    rewrite !(checksumLoop_fold W TopoChecksum cs) by exact Hcs.
    apply fold_lxor_Permutation. exact Hp.
  - intros tw1 tw2 watchers Heq.
    rewrite !(checksumLoop_fold W TopoChecksum cs) by exact Hcs.
    simpl. rewrite Heq, Z.lxor_0_l, Z.lxor_nilpotent. reflexivity.
Qed.

Lemma topologyWatcherChecksum_order_and_pairs_witness :
  (topologyWatcherChecksum Fleet.TopoChecksum (mkGateway "a" 2 Fleet.watchers) 0%nat).1 =
  (topologyWatcherChecksum Fleet.TopoChecksum (mkGateway "a" 2 (reverse Fleet.watchers)) 0%nat).1
  ∧
  (topologyWatcherChecksum Fleet.TopoChecksum
     (mkGateway "a" 2 (mkWatcher "c" HealthCheckRecorder :: mkWatcher "c" HealthCheckRecorder
                         :: Fleet.watchers)) 0%nat).1 =
  (topologyWatcherChecksum Fleet.TopoChecksum (mkGateway "a" 2 Fleet.watchers) 0%nat).1.
Proof.
  destruct (topologyWatcherChecksum_order_and_pairs nat Fleet.TopoChecksum Fleet.checksumOf
              "a" 2 0%nat) as [Horder Hpairs].
  - intros tw w'. reflexivity.
  - split.
    + apply Horder. apply reverse_Permutation || (symmetry; apply reverse_Permutation).
    + apply Hpairs. reflexivity.
Defined.

(** ** NewDiscoveryGateway and the cells it watches *)

Section ConstructorProofs.

Context {E : Env}.
Variable flags : Flags.

Lemma cellRecorder_returns (w : World E) :
  TabletFilters flags = [] ∨
    (KeyspacesToWatch flags = [] ∧
     discovery_NewLegacyFilterByShard E (TabletFilters flags) = None) →
  cellRecorder E flags w = Ret (recorderOf flags, w, []).
Proof.
  intros Hok. unfold cellRecorder, recorderOf, FilteringKeyspaces.
  destruct (TabletFilters flags) as [|f fs] eqn:Hf.
  - rewrite (bool_decide_eq_false_2 (0 < _)) by (simpl; lia).
    rewrite (bool_decide_eq_false_2 ([] ≠ [])) by congruence.
    destruct (KeyspacesToWatch flags) as [|k ks].
    + rewrite (bool_decide_eq_false_2 (0 < _)) by (simpl; lia).
      rewrite (bool_decide_eq_false_2 ([] ≠ [])) by congruence. reflexivity.
    + rewrite (bool_decide_eq_true_2 (0 < _)) by (simpl; lia).
      rewrite (bool_decide_eq_true_2 (_ ≠ [])) by discriminate. reflexivity.
  - destruct Hok as [? | [Hk Hparse]]; [discriminate|].
    rewrite Hk, Hparse.
    rewrite (bool_decide_eq_true_2 (0 < Z.of_nat (length (f :: fs)))) by (simpl; lia).
    rewrite (bool_decide_eq_false_2 (0 < Z.of_nat (length []))) by (simpl; lia).
    rewrite (bool_decide_eq_true_2 (f :: fs ≠ [])) by discriminate. reflexivity.
Qed.

Lemma watchCells_returns (cells : list string) (watchers : list Watcher) (w : World E) :
  TabletFilters flags = [] ∨
    (KeyspacesToWatch flags = [] ∧
     discovery_NewLegacyFilterByShard E (TabletFilters flags) = None) →
  ∃ w',
    watchCells E flags cells watchers w =
      Ret (watchers ++ ((λ c, mkWatcher c (recorderOf flags)) <$>
                          filter (λ c, c ≠ EmptyString) cells),
           w',
           (λ c, EvNewLegacyCellTabletsWatcher c (recorderOf flags)) <$>
             filter (λ c, c ≠ EmptyString) cells).
Proof.
  intros Hok. revert watchers w.
  induction cells as [|c cells IH]; intros watchers w.
  - exists w. cbn. rewrite app_nil_r. reflexivity.
  - cbn [watchCells]. case_bool_decide as Hc.
    + rewrite filter_cons_False by (intros H; apply H, Hc). apply IH.
    + rewrite filter_cons_True by exact Hc.
      destruct (IH (watchers ++ [mkWatcher c (recorderOf flags)])
                   (discovery_NewLegacyCellTabletsWatcher E c (recorderOf flags) w))
        as (w' & Hrest).
      exists w'. unfold bind. rewrite (cellRecorder_returns w Hok).
      unfold NewLegacyCellTabletsWatcher. rewrite Hrest.
      cbn. rewrite <- app_assoc. reflexivity.
Qed.

Lemma cellRecorder_unparsable (w : World E) e :
  TabletFilters flags ≠ [] → KeyspacesToWatch flags = [] →
  discovery_NewLegacyFilterByShard E (TabletFilters flags) = Some e →
  cellRecorder E flags w = Fatal "Cannot parse tablet_filters parameter".
Proof.
  intros Hf Hk Hparse. unfold cellRecorder, FilteringKeyspaces. rewrite Hk, Hparse.
  rewrite (bool_decide_eq_true_2 (0 < Z.of_nat (length (TabletFilters flags))))
    by (destruct (TabletFilters flags); [congruence | simpl; lia]).
  rewrite (bool_decide_eq_false_2 (0 < Z.of_nat (length []))) by (simpl; lia).
  reflexivity.
Qed.

Lemma watchCells_unparsable (cells : list string) (watchers : list Watcher) (w : World E) e :
  TabletFilters flags ≠ [] → KeyspacesToWatch flags = [] →
  discovery_NewLegacyFilterByShard E (TabletFilters flags) = Some e →
  Exists (λ c, c ≠ EmptyString) cells →
  watchCells E flags cells watchers w = Fatal "Cannot parse tablet_filters parameter".
Proof.
  intros Hf Hk Hparse Hex. induction cells as [|c cells IH]; [inversion Hex|].
  cbn [watchCells]. case_bool_decide as Hc.
  - apply IH. inversion Hex; subst; [congruence | assumption].
  - unfold bind. rewrite (cellRecorder_unparsable w e Hf Hk Hparse). reflexivity.
Qed.

End ConstructorProofs.

(** X17.  When the topology server is there (or none is given) and the
    filters are usable (no -tablet_filters, or parsable ones without
    -keyspaces_to_watch), NewDiscoveryGateway returns a gateway with the
    given cell and retry count and one watcher for each non-empty name of
    -cells_to_watch, in order, empty names skipped; every watcher records
    through the shard filter, else the keyspace filter, else the health
    check itself; the listener is set once, with down events, before any
    watcher is created. *)
Theorem NewDiscoveryGateway_watches_every_cell
    (E : Env) (flags : Flags) (hasServ : bool) (cell : string) (retryCount : Z)
    (w : World E) :
  (hasServ = true → (serv_GetTopoServer E w).1 = None) →
  TabletFilters flags = [] ∨
    (KeyspacesToWatch flags = [] ∧
     discovery_NewLegacyFilterByShard E (TabletFilters flags) = None) →
  ∃ w',
    NewDiscoveryGateway E flags hasServ cell retryCount w =
      Ret (mkGateway cell retryCount
             ((λ c, mkWatcher c (recorderOf flags)) <$> watchedCells flags),
           w',
           (if hasServ then [EvGetTopoServer] else []) ++
           EvSetListener true ::
           ((λ c, EvNewLegacyCellTabletsWatcher c (recorderOf flags)) <$> watchedCells flags)).
Proof.
  intros Htopo Hok. unfold NewDiscoveryGateway, watchedCells.
  destruct hasServ.
  - specialize (Htopo eq_refl). unfold bind at 1. unfold bind at 1. unfold GetTopoServer.
    destruct (serv_GetTopoServer E w) as [e w1]. simpl in Htopo. subst e. cbn.
    destruct (watchCells_returns flags (strings_Split (CellsToWatch flags) ",") []
                (hc_SetListener E true w1) Hok) as (w' & Hcells).
    exists w'. unfold bind, SetListener. rewrite Hcells. cbn. rewrite app_nil_r. reflexivity.
  - destruct (watchCells_returns flags (strings_Split (CellsToWatch flags) ",") []
                (hc_SetListener E true w) Hok) as (w' & Hcells).
    exists w'. unfold bind, SetListener. cbn. rewrite Hcells. cbn.
    rewrite app_nil_r. reflexivity.
Qed.

Lemma NewDiscoveryGateway_watches_every_cell_witness :
  ∃ w',
    NewDiscoveryGateway Demo.env (mkFlags false [] "a,,b," [] ["ks"]) true "a" 2 0%nat =
      Ret (mkGateway "a" 2
             [mkWatcher "a" (FilterByKeyspace ["ks"] HealthCheckRecorder);
              mkWatcher "b" (FilterByKeyspace ["ks"] HealthCheckRecorder)],
           w',
           [EvGetTopoServer; EvSetListener true;
            EvNewLegacyCellTabletsWatcher "a" (FilterByKeyspace ["ks"] HealthCheckRecorder);
            EvNewLegacyCellTabletsWatcher "b" (FilterByKeyspace ["ks"] HealthCheckRecorder)]).
Proof.
  destruct (NewDiscoveryGateway_watches_every_cell
              Demo.env (mkFlags false [] "a,,b," [] ["ks"]) true "a" 2 0%nat)
    as (w' & Hrun).
  - reflexivity.
  - left. reflexivity.
  - exists w'. rewrite Hrun. vm_compute. reflexivity.
Defined.

(** X18.  When -tablet_filters is given alone but cannot be parsed and at
    least one cell is to be watched, NewDiscoveryGateway ends the process
    at the first cell; a topology server that cannot be reached ends it
    before that. *)
Theorem NewDiscoveryGateway_unparsable_filters_fatal
    (E : Env) (flags : Flags) (hasServ : bool) (cell : string) (retryCount : Z)
    (w : World E) (e : error) :
  TabletFilters flags ≠ [] →
  KeyspacesToWatch flags = [] →
  discovery_NewLegacyFilterByShard E (TabletFilters flags) = Some e →
  watchedCells flags ≠ [] →
  NewDiscoveryGateway E flags hasServ cell retryCount w =
    Fatal (if hasServ && bool_decide (is_Some (serv_GetTopoServer E w).1)
           then "Unable to create new discoverygateway"
           else "Cannot parse tablet_filters parameter").
Proof.
  intros Hf Hk Hparse Hcells.
  assert (Hex : Exists (λ c, c ≠ EmptyString) (strings_Split (CellsToWatch flags) ",")).
  { unfold watchedCells in Hcells.
    destruct (filter _ _) as [|c cs] eqn:Hfilter; [congruence|].
    apply Exists_exists. exists c.
    assert (Hin : c ∈ filter (λ c, c ≠ EmptyString) (strings_Split (CellsToWatch flags) ","))
      by (rewrite Hfilter; left).
    apply list_elem_of_filter in Hin as [Hne Hin]. auto. }
  unfold NewDiscoveryGateway. destruct hasServ.
  - unfold bind at 1. unfold bind at 1. unfold GetTopoServer.
    destruct (serv_GetTopoServer E w) as [[e1|] w1]; cbn.
    + reflexivity.
    + unfold bind. cbn.
      rewrite (watchCells_unparsable flags _ _ _ e Hf Hk Hparse Hex). reflexivity.
  - unfold bind. cbn.
    rewrite (watchCells_unparsable flags _ _ _ e Hf Hk Hparse Hex). reflexivity.
Qed.

Lemma NewDiscoveryGateway_unparsable_filters_fatal_witness :
  NewDiscoveryGateway Fleet.envBadFilters (mkFlags false [] ",b" ["ks"] []) true "a" 2 0%nat =
    Fatal "Cannot parse tablet_filters parameter".
Proof.
  apply (NewDiscoveryGateway_unparsable_filters_fatal
           Fleet.envBadFilters (mkFlags false [] ",b" ["ks"] []) true "a" 2 0%nat
           (VtError Code_INVALID_ARGUMENT (MsgText "invalid FilterByShard parameter"))).
  - discriminate.
  - reflexivity.
  - reflexivity.
  - vm_compute. discriminate.
Defined.
